(** * assembler0-simulator: the gamepad-to-protocol pipeline

    A shallow embedding of the teleoperation front-end's core:
    - [types/gamepad.ts]          : the data model ([Types]);
    - [hooks/useGamepad.ts]       : deadzone conditioning and the device
                                    poller ([UseGamepad]);
    - [hooks/useGamepadControl.ts]: the command throttler
                                    ([UseGamepadControl]);
    - [services/gamepadService.ts]: the queueing send wrapper
                                    ([GamepadService]);
    - [services/websocket.ts]     : the reconnecting session
                                    ([Websocket]).

    JavaScript numbers are embedded as exact rationals [Q]: stick and
    trigger values, gains and thresholds are decimal fractions, and the
    properties below are about comparisons and products of them, not about
    rounding.  [Date.now()] is an integer number of milliseconds, [Z].
    Arithmetic identities are stated with [==] on [Q]. *)

From Stdlib Require Import ZArith QArith Qabs Lqa Lia List Bool String.
From stdpp Require Import base list option.
Import ListNotations.

Local Open Scope Q_scope.

(** ** Comparisons of numbers, as booleans *)

Definition Qltb (a b : Q) : bool := negb (Qle_bool b a).
Definition Qgtb (a b : Q) : bool := Qltb b a.

(** ** types/gamepad.ts *)

Module Vec2.
Record t : Type := mk { x : Q; y : Q }.
End Vec2.

Module Buttons.
Record t : Type := mk {
  a : bool; b : bool; x : bool; y : bool;
  lb : bool; rb : bool;
  lt : Q; rt : Q;
  back : bool; start : bool;
  leftStickButton : bool; rightStickButton : bool;
  dpadUp : bool; dpadDown : bool; dpadLeft : bool; dpadRight : bool;
  home : bool
}.

(** The object literal both [useState] and [pollGamepad] start from. *)
Definition released : t :=
  mk false false false false false false 0 0
     false false false false false false false false false.
End Buttons.

Module Deltas.
Record t : Type := mk { x : Q; y : Q; z : Q; wrist : Q }.
End Deltas.

(** The [{ x, y, z }] argument of the joint helpers of the service. *)
Module Xyz.
Record t : Type := mk { x : Q; y : Q; z : Q }.
End Xyz.

Module Types.

Record GamepadState : Type := mkGamepadState {
  connected : bool;
  leftStick : Vec2.t;
  rightStick : Vec2.t;
  buttons : Buttons.t
}.

Record Sensitivity : Type := mkSensitivity {
  s_leftStick : Q;
  s_rightStick : Q;
  s_triggers : Q
}.

Record GamepadConfig : Type := mkGamepadConfig {
  deadzone : Q;
  sensitivity : Sensitivity;
  invertY : bool
}.

Inductive Gripper : Type := open | close | stay.

Record GamepadControlMessage : Type := mkGamepadControlMessage {
  type : string;
  deltas : Deltas.t;
  gripper : option Gripper;         (* [gripper?:], [undefined] is [None] *)
  msg_buttons : list (string * bool) (* [buttons?: Record<string, boolean>] *)
}.

Definition DEFAULT_GAMEPAD_CONFIG : GamepadConfig :=
  {| deadzone := 0.1;
     sensitivity := {| s_leftStick := 1.0; s_rightStick := 1.0; s_triggers := 1.0 |};
     invertY := false |}.

Inductive ButtonName : Type :=
| Ba | Bb | Bx | By | Blb | Brb | Blt | Brt | Bback | Bstart
| BleftStickButton | BrightStickButton
| BdpadUp | BdpadDown | BdpadLeft | BdpadRight | Bhome.

(** The raw-index to name table; an index outside it reads [undefined]. *)
Definition GAMEPAD_BUTTON_MAPPING (index : nat) : option ButtonName :=
  match index with
  | 0 => Some Ba | 1 => Some Bb | 2 => Some Bx | 3 => Some By
  | 4 => Some Blb | 5 => Some Brb | 6 => Some Blt | 7 => Some Brt
  | 8 => Some Bback | 9 => Some Bstart
  | 10 => Some BleftStickButton | 11 => Some BrightStickButton
  | 12 => Some BdpadUp | 13 => Some BdpadDown
  | 14 => Some BdpadLeft | 15 => Some BdpadRight
  | 16 => Some Bhome
  | _ => None
  end%nat.

End Types.
Import Types.

(** ** The browser's Gamepad API, as the poller reads it *)

Module Navigator.
Record GamepadButton : Type := mkButton { pressed : bool; value : Q }.

Record Gamepad : Type := mkGamepad {
  id : string;
  axes : list Q;
  buttons : list GamepadButton
}.

(** [gamepad.axes[i]].  A standard gamepad reports four axes; a missing
    one reads [undefined] in JavaScript, which is outside this embedding:
    the theorems on analog values assume the four axes are there. *)
Definition axis (g : Gamepad) (i : nat) : Q := default 0 (axes g !! i).
End Navigator.

(** ** hooks/useGamepad.ts *)

Module UseGamepad.

Definition applyDeadzone (value deadzone : Q) : Q :=
  if Qltb (Qabs value) deadzone then 0
  else
    let sign : Q := if Qgtb value 0 then 1 else -1 in
    sign * ((Qabs value - deadzone) / (1 - deadzone)).

(** [buttons[buttonName] = v] for the two analog entries. *)
Definition setAnalog (name : ButtonName) (v : Q) (bs : Buttons.t) : Buttons.t :=
  let '(Buttons.mk a b x y lb rb lt rt back start lsb rsb du dd dl dr home) := bs in
  match name with
  | Blt => Buttons.mk a b x y lb rb v rt back start lsb rsb du dd dl dr home
  | Brt => Buttons.mk a b x y lb rb lt v back start lsb rsb du dd dl dr home
  | _ => bs
  end.

(** [(buttons as any)[buttonName] = p] for the boolean entries. *)
Definition setPressed (name : ButtonName) (p : bool) (bs : Buttons.t) : Buttons.t :=
  let '(Buttons.mk a b x y lb rb lt rt back start lsb rsb du dd dl dr home) := bs in
  match name with
  | Ba => Buttons.mk p b x y lb rb lt rt back start lsb rsb du dd dl dr home
  | Bb => Buttons.mk a p x y lb rb lt rt back start lsb rsb du dd dl dr home
  | Bx => Buttons.mk a b p y lb rb lt rt back start lsb rsb du dd dl dr home
  | By => Buttons.mk a b x p lb rb lt rt back start lsb rsb du dd dl dr home
  | Blb => Buttons.mk a b x y p rb lt rt back start lsb rsb du dd dl dr home
  | Brb => Buttons.mk a b x y lb p lt rt back start lsb rsb du dd dl dr home
  | Blt | Brt => bs
  | Bback => Buttons.mk a b x y lb rb lt rt p start lsb rsb du dd dl dr home
  | Bstart => Buttons.mk a b x y lb rb lt rt back p lsb rsb du dd dl dr home
  | BleftStickButton => Buttons.mk a b x y lb rb lt rt back start p rsb du dd dl dr home
  | BrightStickButton => Buttons.mk a b x y lb rb lt rt back start lsb p du dd dl dr home
  | BdpadUp => Buttons.mk a b x y lb rb lt rt back start lsb rsb p dd dl dr home
  | BdpadDown => Buttons.mk a b x y lb rb lt rt back start lsb rsb du p dl dr home
  | BdpadLeft => Buttons.mk a b x y lb rb lt rt back start lsb rsb du dd p dr home
  | BdpadRight => Buttons.mk a b x y lb rb lt rt back start lsb rsb du dd dl p home
  | Bhome => Buttons.mk a b x y lb rb lt rt back start lsb rsb du dd dl dr p
  end.

(** The body of the [forEach] callback, for one [(button, index)]. *)
Definition assignButton (config : GamepadConfig) (bs : Buttons.t)
    (button : Navigator.GamepadButton) (index : nat) : Buttons.t :=
  match GAMEPAD_BUTTON_MAPPING index with
  | Some buttonName =>
      match buttonName with
      | Blt | Brt =>
          setAnalog buttonName (Navigator.value button * s_triggers (sensitivity config)) bs
      | _ => setPressed buttonName (Navigator.pressed button) bs
      end
  | None => bs
  end.

(** [gamepad.buttons.forEach((button, index) => ...)], from [index]. *)
Fixpoint forEachButton (config : GamepadConfig) (l : list Navigator.GamepadButton)
    (index : nat) (bs : Buttons.t) : Buttons.t :=
  match l with
  | [] => bs
  | button :: rest =>
      forEachButton config rest (S index) (assignButton config bs button index)
  end.

Definition invertSign (config : GamepadConfig) : Q :=
  if invertY config then -1 else 1.

(** The conditioning of one raw axis as [pollGamepad] writes it:
    [applyDeadzone(raw, deadzone) * gain], [gain] the sensitivity of the
    axis' group. *)
Definition condition (raw deadzone gain : Q) : Q :=
  applyDeadzone raw deadzone * gain.

(** The snapshot [pollGamepad] builds from a live device (lines 65-106). *)
Definition readGamepad (config : GamepadConfig) (gamepad : Navigator.Gamepad) : GamepadState :=
  let leftX := condition (Navigator.axis gamepad 0) (deadzone config)
                 (s_leftStick (sensitivity config)) in
  let leftY := condition (Navigator.axis gamepad 1) (deadzone config)
                 (s_leftStick (sensitivity config)) * invertSign config in
  let rightX := condition (Navigator.axis gamepad 2) (deadzone config)
                  (s_rightStick (sensitivity config)) in
  let rightY := condition (Navigator.axis gamepad 3) (deadzone config)
                  (s_rightStick (sensitivity config)) * invertSign config in
  let buttons := forEachButton config (Navigator.buttons gamepad) 0 Buttons.released in
  {| connected := true;
     leftStick := Vec2.mk leftX leftY;
     rightStick := Vec2.mk rightX rightY;
     buttons := buttons |}.

(** The hook's state: the React state and the [gamepadIndex] ref. *)
Record Hook : Type := mkHook {
  gamepadState : GamepadState;
  gamepadIndex : option nat
}.

Definition initialState : GamepadState :=
  {| connected := false;
     leftStick := Vec2.mk 0 0;
     rightStick := Vec2.mk 0 0;
     buttons := Buttons.released |}.

Definition initialHook : Hook :=
  {| gamepadState := initialState; gamepadIndex := None |}.

(** [prev => ({ ...prev, connected: c })] *)
Definition withConnected (c : bool) (prev : GamepadState) : GamepadState :=
  {| connected := c;
     leftStick := leftStick prev;
     rightStick := rightStick prev;
     buttons := buttons prev |}.

(** The scan [for (let i = 0; i < gamepads.length; i++)] for the first
    non-null slot, started at slot [i]. *)
Fixpoint firstLive (gamepads : list (option Navigator.Gamepad)) (i : nat) : option nat :=
  match gamepads with
  | [] => None
  | Some _ :: _ => Some i
  | None :: rest => firstLive rest (S i)
  end.

(** One run of [pollGamepad] against [navigator.getGamepads()].  (The
    re-arming [requestAnimationFrame] call is the scheduler's and is not
    part of the state.) *)
Definition pollGamepad (config : GamepadConfig)
    (gamepads : list (option Navigator.Gamepad)) (h : Hook) : Hook :=
  let index :=
    match gamepadIndex h with
    | None => firstLive gamepads 0
    | Some i => Some i
    end in
  match index with
  | Some i =>
      match gamepads !! i with
      | Some (Some gamepad) =>
          {| gamepadState := readGamepad config gamepad; gamepadIndex := Some i |}
      | _ =>
          (* [!gamepad]: a null slot, or a slot past the array's end *)
          {| gamepadState := withConnected false (gamepadState h);
             gamepadIndex := None |}
      end
  | None => {| gamepadState := gamepadState h; gamepadIndex := None |}
  end.

(** [handleGamepadConnected]: binds the device of the event. *)
Definition handleGamepadConnected (index : nat) (h : Hook) : Hook :=
  {| gamepadState := withConnected true (gamepadState h);
     gamepadIndex := Some index |}.

(** [handleGamepadDisconnected]: unbinds when the event is about the bound
    device ([gamepadIndex.current === e.gamepad.index]). *)
Definition handleGamepadDisconnected (index : nat) (h : Hook) : Hook :=
  match gamepadIndex h with
  | Some i =>
      if Nat.eqb i index
      then {| gamepadState := withConnected false (gamepadState h);
              gamepadIndex := None |}
      else h
  | None => h
  end.

(** [checkInitialGamepads]: binds the first device already present. *)
Definition checkInitialGamepads (gamepads : list (option Navigator.Gamepad))
    (h : Hook) : Hook :=
  match firstLive gamepads 0 with
  | Some i =>
      {| gamepadState := withConnected true (gamepadState h);
         gamepadIndex := Some i |}
  | None => h
  end.

(** What runs on a mounted hook: a poll on an animation frame, or one of
    the two window events. *)
Inductive HookEvent : Type :=
| Poll (gamepads : list (option Navigator.Gamepad))
| GamepadConnected (index : nat)
| GamepadDisconnected (index : nat).

Definition hookStep (config : GamepadConfig) (e : HookEvent) (h : Hook) : Hook :=
  match e with
  | Poll gamepads => pollGamepad config gamepads h
  | GamepadConnected index => handleGamepadConnected index h
  | GamepadDisconnected index => handleGamepadDisconnected index h
  end.

Definition hookRun (config : GamepadConfig) (events : list HookEvent) (h : Hook)
    : Hook :=
  fold_left (fun h e => hookStep config e h) events h.

(** The mount effect: [checkInitialGamepads()] on the initial state. *)
Definition mount (gamepads : list (option Navigator.Gamepad)) : Hook :=
  checkInitialGamepads gamepads initialHook.

End UseGamepad.
Import UseGamepad.

(** ** hooks/useGamepadControl.ts *)

Module UseGamepadControl.

Definition CONTROL_UPDATE_RATE : Q := 60. (* Hz *)
Definition CONTROL_UPDATE_INTERVAL : Q := 1000 / CONTROL_UPDATE_RATE.

(** The two refs of the hook. *)
Record Refs : Type := mkRefs {
  lastUpdateTime : Z;
  previousState : option GamepadState
}.

Definition initialRefs : Refs :=
  {| lastUpdateTime := 0%Z; previousState := None |}.

Definition hasMovement (gamepadState : GamepadState) : bool :=
  Qgtb (Qabs (Vec2.x (leftStick gamepadState))) 0.01 ||
  Qgtb (Qabs (Vec2.y (leftStick gamepadState))) 0.01 ||
  Qgtb (Qabs (Vec2.x (rightStick gamepadState))) 0.01 ||
  Qgtb (Qabs (Vec2.y (rightStick gamepadState))) 0.01.

Definition hasGripperInput (gamepadState : GamepadState) : bool :=
  Qgtb (Buttons.lt (buttons gamepadState)) 0.1 ||
  Qgtb (Buttons.rt (buttons gamepadState)) 0.1.

(** [!==] on two booleans *)
Definition differs (p q : bool) : bool := negb (Bool.eqb p q).

Definition buttonChanged (gamepadState previous : GamepadState) : bool :=
  differs (Buttons.a (buttons gamepadState)) (Buttons.a (buttons previous)) ||
  differs (Buttons.x (buttons gamepadState)) (Buttons.x (buttons previous)) ||
  differs (Buttons.y (buttons gamepadState)) (Buttons.y (buttons previous)) ||
  differs (Buttons.rb (buttons gamepadState)) (Buttons.rb (buttons previous)).

Definition speedMultiplier (gamepadState : GamepadState) : Q :=
  if Buttons.rb (buttons gamepadState) then 0.03 else 0.15.

(** The object literal of lines 57-77, its [gripper] still [undefined]. *)
Definition controlMessage (gamepadState : GamepadState) : GamepadControlMessage :=
  let speedMultiplier := speedMultiplier gamepadState in
  let bs := buttons gamepadState in
  {| type := "gamepad_control";
     deltas :=
       {| Deltas.x := Vec2.x (leftStick gamepadState) * speedMultiplier;
          Deltas.y := - Vec2.y (leftStick gamepadState) * speedMultiplier;
          Deltas.z := - Vec2.y (rightStick gamepadState) * speedMultiplier;
          Deltas.wrist := Vec2.x (rightStick gamepadState) * speedMultiplier |};
     gripper := None;
     msg_buttons :=
       [ ("a", Buttons.a bs); ("x", Buttons.x bs); ("y", Buttons.y bs);
         ("lb", Buttons.lb bs); ("rb", Buttons.rb bs);
         ("dpadUp", Buttons.dpadUp bs); ("dpadDown", Buttons.dpadDown bs);
         ("dpadLeft", Buttons.dpadLeft bs); ("dpadRight", Buttons.dpadRight bs) ]%string |}.

(** [controlMessage.gripper = g] *)
Definition setGripper (g : Gripper) (m : GamepadControlMessage) : GamepadControlMessage :=
  {| type := type m; deltas := deltas m; gripper := Some g;
     msg_buttons := msg_buttons m |}.

(** Lines 80-86. *)
Definition handleGripper (gamepadState : GamepadState)
    (m : GamepadControlMessage) : GamepadControlMessage :=
  if Qgtb (Buttons.rt (buttons gamepadState)) 0.5 then setGripper open m
  else if Qgtb (Buttons.lt (buttons gamepadState)) 0.5 then setGripper close m
  else setGripper stay m.

(** One run of the effect body on the snapshot [gamepadState], with
    [Date.now()] reading [now].  The first component is the message handed
    to [sendGamepadControl], [None] when the tick returns early; the second
    is the refs after the tick. *)
Definition effect (gamepadState : GamepadState) (now : Z) (r : Refs)
    : option GamepadControlMessage * Refs :=
  if negb (connected gamepadState) then (None, r)
  else if Qltb (inject_Z (now - lastUpdateTime r)) CONTROL_UPDATE_INTERVAL
  then (None, r)
  else
    let quiet :=
      negb (hasMovement gamepadState) && negb (hasGripperInput gamepadState) in
    let suppressed :=
      match previousState r with
      | Some previous => quiet && negb (buttonChanged gamepadState previous)
      | None => false
      end in
    if suppressed then (None, r)
    else
      (Some (handleGripper gamepadState (controlMessage gamepadState)),
       {| lastUpdateTime := now; previousState := Some gamepadState |}).

(** The effect run on a sequence of snapshots, each with the clock reading
    at its tick: the commands sent, with the time of each, and the refs at
    the end. *)
Fixpoint runTicks (ticks : list (GamepadState * Z)) (r : Refs)
    : list (Z * GamepadControlMessage) * Refs :=
  match ticks with
  | [] => ([], r)
  | (gamepadState, now) :: rest =>
      let '(out, r1) := effect gamepadState now r in
      let '(sends, r2) := runTicks rest r1 in
      (match out with
       | Some m => (now, m) :: sends
       | None => sends
       end, r2)
  end.

End UseGamepadControl.
Import UseGamepadControl.

(** ** The browser's WebSocket and timer API, as the services use it *)

Module Browser.

Inductive ReadyState : Type := CONNECTING | OPEN | CLOSING | CLOSED.

Definition isOPEN (r : ReadyState) : bool :=
  match r with OPEN => true | _ => false end.

(** A socket object: its [readyState], the frames it has put on the wire
    (oldest first) and how many times [send] was called on it. *)
Record WebSocket : Type := mkWebSocket {
  readyState : ReadyState;
  sent : list GamepadControlMessage;
  sendCalls : nat
}.

Definition freshSocket : WebSocket :=
  {| readyState := CONNECTING; sent := []; sendCalls := 0 |}.

Definition withReadyState (r : ReadyState) (s : WebSocket) : WebSocket :=
  {| readyState := r; sent := sent s; sendCalls := sendCalls s |}.

(** How a call ends: it returns, or it throws; either way with the state
    it leaves behind. *)
Inductive Completion (A : Type) : Type :=
| Normal (a : A)
| Throw (a : A).
Arguments Normal {A} a.
Arguments Throw {A} a.

Section Send.
(** Which calls of [send] throw: [throws n] decides the call number [n]
    on a socket (a serialization or transport failure), so that every
    sequence of outcomes can be described. *)
Variable throws : nat -> bool.

(** [ws.send(JSON.stringify(message))].  On a connecting socket [send]
    throws; on a closing or closed one the frame is dropped silently. *)
Definition ws_send (message : GamepadControlMessage) (s : WebSocket)
    : Completion WebSocket :=
  let counted sent' :=
    {| readyState := readyState s; sent := sent'; sendCalls := S (sendCalls s) |} in
  match readyState s with
  | CONNECTING => Throw (counted (sent s))
  | OPEN =>
      if throws (sendCalls s) then Throw (counted (sent s))
      else Normal (counted (sent s ++ [message]))
  | CLOSING | CLOSED => Normal (counted (sent s))
  end.
End Send.

(** [ws.close()]: starts the closing handshake of a socket that is not
    yet closing; the close event is delivered later. *)
Definition ws_close (s : WebSocket) : WebSocket :=
  match readyState s with
  | CONNECTING | OPEN => withReadyState CLOSING s
  | CLOSING | CLOSED => s
  end.

(** [clearTimeout(id)] on the list of pending timeouts [(id, due)]. *)
Fixpoint clearTimeout (id : nat) (timers : list (nat * Z)) : list (nat * Z) :=
  match timers with
  | [] => []
  | (i, due) :: rest =>
      if Nat.eqb i id then clearTimeout id rest
      else (i, due) :: clearTimeout id rest
  end.

(** Is timeout [id] pending and due at time [clock]? *)
Fixpoint isDue (id : nat) (clock : Z) (timers : list (nat * Z)) : bool :=
  match timers with
  | [] => false
  | (i, due) :: rest =>
      (Nat.eqb i id && Z.leb due clock) || isDue id clock rest
  end.

End Browser.
Import Browser.

(** ** services/websocket.ts *)

Module Websocket.

(** The [SimulatorWebSocket] object ([ws], [reconnectTimeout]) together
    with the part of the browser it acts on: the sockets it has created
    (a socket handle is its position in [sockets]), the pending timeouts,
    the next timeout handle, the clock in milliseconds and the console.
    Every socket is created by [connect], which attaches the session's
    four handlers to it and never detaches them.  The constructor
    [new WebSocket(url)] is taken to succeed: the URL is the fixed
    [ws://host:1337/ws] of App.tsx. *)
Record State : Type := mkState {
  ws : option nat;
  reconnectTimeout : option nat;
  sockets : list WebSocket;
  timers : list (nat * Z);
  nextTimeout : nat;
  clock : Z;
  console : list string
}.

(** After [new SimulatorWebSocket(url)].  Timeout handles are positive
    integers, so the first one is 1. *)
Definition initial : State :=
  {| ws := None; reconnectTimeout := None; sockets := []; timers := [];
     nextTimeout := 1; clock := 0%Z; console := [] |}.

Definition log (line : string) (s : State) : State :=
  {| ws := ws s; reconnectTimeout := reconnectTimeout s; sockets := sockets s;
     timers := timers s; nextTimeout := nextTimeout s; clock := clock s;
     console := console s ++ [line] |}.

Definition setSocket (i : nat) (r : ReadyState) (s : State) : State :=
  {| ws := ws s; reconnectTimeout := reconnectTimeout s;
     sockets := alter (withReadyState r) i (sockets s);
     timers := timers s; nextTimeout := nextTimeout s; clock := clock s;
     console := console s |}.

(** [connect()]: a new socket, with the handlers attached. *)
Definition connect (s : State) : State :=
  {| ws := Some (length (sockets s));
     reconnectTimeout := reconnectTimeout s;
     sockets := sockets s ++ [freshSocket];
     timers := timers s; nextTimeout := nextTimeout s; clock := clock s;
     console := console s |}.

(** [if (this.reconnectTimeout) clearTimeout(this.reconnectTimeout)]:
    a handle is truthy when it is not 0. *)
Definition clearPending (s : State) : list (nat * Z) :=
  match reconnectTimeout s with
  | Some id => if Nat.eqb id 0 then timers s else clearTimeout id (timers s)
  | None => timers s
  end.

Definition scheduleReconnect (s : State) : State :=
  {| ws := ws s;
     reconnectTimeout := Some (nextTimeout s);
     sockets := sockets s;
     timers := clearPending s ++ [(nextTimeout s, (clock s + 1000)%Z)];
     nextTimeout := S (nextTimeout s);
     clock := clock s;
     console := console s |}.

(** [disconnect()] *)
Definition disconnect (s : State) : State :=
  {| ws := ws s;
     reconnectTimeout := reconnectTimeout s;
     sockets :=
       match ws s with
       | Some i => alter ws_close i (sockets s)
       | None => sockets s
       end;
     timers := clearPending s;
     nextTimeout := nextTimeout s;
     clock := clock s;
     console := console s |}.

(** The handlers [connect] attaches, and the timeout's callback. *)
Definition onopen (s : State) : State := log "WebSocket connected" s.
Definition onerror (s : State) : State := log "WebSocket error:" s.
Definition onclose (s : State) : State :=
  scheduleReconnect (log "WebSocket disconnected" s).
Definition reconnectCallback (s : State) : State :=
  connect (log "Attempting to reconnect..." s).

(** What can happen to a session: the application calls a method, the
    browser delivers a socket event or runs a due timeout, time passes. *)
Inductive Event : Type :=
| CallConnect
| CallDisconnect
| SocketOpen (i : nat)
| SocketError (i : nat)
| SocketClose (i : nat)
| TimeoutFires (id : nat)
| Elapse (ms : Z).

Definition socketState (i : nat) (s : State) : option ReadyState :=
  readyState <$> sockets s !! i.

Definition removeTimer (id : nat) (s : State) : State :=
  {| ws := ws s; reconnectTimeout := reconnectTimeout s; sockets := sockets s;
     timers := clearTimeout id (timers s); nextTimeout := nextTimeout s;
     clock := clock s; console := console s |}.

Definition advance (ms : Z) (s : State) : State :=
  {| ws := ws s; reconnectTimeout := reconnectTimeout s; sockets := sockets s;
     timers := timers s; nextTimeout := nextTimeout s;
     clock := (clock s + ms)%Z; console := console s |}.

(** One event; [None] when the browser cannot produce it in state [s]
    (an open event on a socket that is not connecting, a close event on a
    closed socket, a timeout that is not pending or not yet due). *)
Definition step (e : Event) (s : State) : option State :=
  match e with
  | CallConnect => Some (connect s)
  | CallDisconnect => Some (disconnect s)
  | SocketOpen i =>
      match socketState i s with
      | Some CONNECTING => Some (onopen (setSocket i OPEN s))
      | _ => None
      end
  | SocketError i =>
      match socketState i s with
      | Some CONNECTING | Some OPEN | Some CLOSING => Some (onerror s)
      | _ => None
      end
  | SocketClose i =>
      match socketState i s with
      | Some CONNECTING | Some OPEN | Some CLOSING =>
          Some (onclose (setSocket i CLOSED s))
      | _ => None
      end
  | TimeoutFires id =>
      if isDue id (clock s) (timers s)
      then Some (reconnectCallback (removeTimer id s))
      else None
  | Elapse ms =>
      if Z.leb 0 ms then Some (advance ms s) else None
  end.

Fixpoint run (events : list Event) (s : State) : option State :=
  match events with
  | [] => Some s
  | e :: rest =>
      match step e s with
      | Some s' => run rest s'
      | None => None
      end
  end.

Definition reachable (s : State) : Prop :=
  exists events, run events initial = Some s.

(** [getWebSocketConnection()] on the session the global points to. *)
Definition getWebSocketConnection (globalWebSocketInstance : option State)
    : option WebSocket :=
  match globalWebSocketInstance with
  | Some s => match ws s with Some i => sockets s !! i | None => None end
  | None => None
  end.

Section Dispatch.
(** [Message]: a parsed inbound payload ([WebSocketMessage]); [Obs]: what
    the registered handlers act on (the application's state);
    [parse data]: [JSON.parse(event.data)], [None] when it throws. *)
Variable Message Obs : Type.
Variable parse : string -> option Message.

Definition Handler : Type := Message -> Obs -> Completion Obs.

(** [onMessage(handler)]: [this.messageHandlers.push(handler)] *)
Definition onMessage (handler : Handler) (messageHandlers : list Handler)
    : list Handler :=
  messageHandlers ++ [handler].

(** [this.messageHandlers.forEach(handler => handler(message))]: a handler
    that throws ends the iteration. *)
Fixpoint forEachHandler (messageHandlers : list Handler) (message : Message)
    (o : Obs) : Completion Obs :=
  match messageHandlers with
  | [] => Normal o
  | handler :: rest =>
      match handler message o with
      | Normal o' => forEachHandler rest message o'
      | Throw o' => Throw o'
      end
  end.

(** The [onmessage] handler of a socket: parse and fan-out inside one [try],
    whose [catch] logs.  The state is the observers' and the console. *)
Definition onmessage (messageHandlers : list Handler) (data : string)
    (st : Obs * list string) : Obs * list string :=
  let '(o, console) := st in
  match parse data with
  | Some message =>
      match forEachHandler messageHandlers message o with
      | Normal o' => (o', console)
      | Throw o' => (o', console ++ ["Error parsing WebSocket message:"%string])
      end
  | None => (o, console ++ ["Error parsing WebSocket message:"%string])
  end.
End Dispatch.
Arguments onMessage {Message Obs} handler messageHandlers.
Arguments forEachHandler {Message Obs} messageHandlers message o.
Arguments onmessage {Message Obs} parse messageHandlers data st.

End Websocket.

(** ** services/gamepadService.ts *)

Module GamepadService.

(** The module's two variables. *)
Record Service : Type := mkService {
  messageQueue : list GamepadControlMessage;
  isProcessingQueue : bool
}.

Definition initialService : Service :=
  {| messageQueue := []; isProcessingQueue := false |}.

(** [messageQueue.push(message)] *)
Definition push (message : GamepadControlMessage) (v : Service) : Service :=
  {| messageQueue := messageQueue v ++ [message];
     isProcessingQueue := isProcessingQueue v |}.

(** [!ws || ws.readyState !== WebSocket.OPEN] *)
Definition notConnected (ws : option WebSocket) : bool :=
  match ws with
  | Some s => negb (isOPEN (readyState s))
  | None => true
  end.

Section Send.
Variable throws : nat -> bool.

(** The [while (messageQueue.length > 0)] loop: each round shifts the
    head off the queue and sends it inside [try]; the [catch] block
    unshifts it and breaks. *)
Fixpoint drain (queue : list GamepadControlMessage) (s : WebSocket)
    : list GamepadControlMessage * WebSocket :=
  match queue with
  | [] => ([], s)
  | message :: rest =>
      match ws_send throws message s with
      | Normal s' => drain rest s'
      | Throw s' => (message :: rest, s')
      end
  end.

(** [processMessageQueue()], with [ws] what [getWebSocketConnection()]
    returns. *)
Definition processMessageQueue (ws : option WebSocket) (v : Service)
    : Completion (option WebSocket * Service) :=
  if isProcessingQueue v || Nat.eqb (length (messageQueue v)) 0
  then Normal (ws, v)
  else
    match ws with
    | Some s =>
        if isOPEN (readyState s) then
          let '(queue, s') := drain (messageQueue v) s in
          Normal (Some s', {| messageQueue := queue; isProcessingQueue := false |})
        else
          Normal (ws, {| messageQueue := messageQueue v; isProcessingQueue := false |})
    | None =>
        Normal (ws, {| messageQueue := messageQueue v; isProcessingQueue := false |})
    end.

(** [sendGamepadControl(message)] *)
Definition sendGamepadControl (message : GamepadControlMessage)
    (ws : option WebSocket) (v : Service)
    : Completion (option WebSocket * Service) :=
  if notConnected ws then Normal (ws, push message v)
  else
    let queued :=
      if Nat.ltb 0 (length (messageQueue v)) && negb (isProcessingQueue v)
      then processMessageQueue ws v
      else Normal (ws, v) in
    match queued with
    | Normal (Some s, v1) =>
        match ws_send throws message s with
        | Normal s' => Normal (Some s', v1)
        | Throw s' => Normal (Some s', push message v1)
        end
    | Normal (None, v1) => Throw (None, v1)   (* [ws] is not null here *)
    | Throw r => Throw r
    end.
(** The calls of [sendGamepadControl] for a sequence of commands, oldest
    first, as the throttler issues them. *)
Fixpoint sendAll (messages : list GamepadControlMessage)
    (ws : option WebSocket) (v : Service)
    : Completion (option WebSocket * Service) :=
  match messages with
  | [] => Normal (ws, v)
  | message :: rest =>
      match sendGamepadControl message ws v with
      | Normal (ws', v') => sendAll rest ws' v'
      | Throw r => Throw r
      end
  end.
End Send.

(** [newJoints[i] += d], behind the guard [newJoints.length > i]. *)
Definition addAt (i : nat) (d : Q) (newJoints : list Q) : list Q :=
  if Nat.ltb i (length newJoints)
  then alter (fun v => v + d) i newJoints
  else newJoints.

(** [calculateJointDeltas(currentJoints, deltas)], on a copy of the array. *)
Definition calculateJointDeltas (currentJoints : list Q) (deltas : Xyz.t)
    : list Q :=
  let newJoints := currentJoints in
  let newJoints := addAt 0 (Xyz.x deltas * 5) newJoints in
  let newJoints := addAt 1 (Xyz.y deltas * 5) newJoints in
  let newJoints := addAt 2 (Xyz.z deltas * 5) newJoints in
  newJoints.

(** [velocities[i] = v], behind the guard [numJoints > i]. *)
Definition setAt (numJoints i : nat) (v : Q) (velocities : list Q) : list Q :=
  if Nat.ltb i numJoints then <[i := v]> velocities else velocities.

(** [mapGamepadToJointVelocities(deltas, numJoints)] *)
Definition mapGamepadToJointVelocities (deltas : Xyz.t) (numJoints : nat)
    : list Q :=
  let velocities := replicate numJoints 0 in
  let velocities := setAt numJoints 0 (Xyz.x deltas * 1.0) velocities in
  let velocities := setAt numJoints 1 (Xyz.y deltas * 1.0) velocities in
  let velocities := setAt numJoints 2 (Xyz.z deltas * 1.0) velocities in
  velocities.

End GamepadService.
Import GamepadService.
Import Websocket.

(** * Vocabulary of the properties, and the sample inputs *)

(** The mathematical sign of a number. *)
Definition sign (q : Q) : Q :=
  if Qgtb q 0 then 1 else if Qltb q 0 then -1 else 0.

(** The declared ranges of the analog fields of a snapshot. *)
Definition analogInRange (g : GamepadState) : Prop :=
  (-1 <= Vec2.x (leftStick g) <= 1) /\ (-1 <= Vec2.y (leftStick g) <= 1) /\
  (-1 <= Vec2.x (rightStick g) <= 1) /\ (-1 <= Vec2.y (rightStick g) <= 1) /\
  (0 <= Buttons.lt (buttons g) <= 1) /\ (0 <= Buttons.rt (buttons g) <= 1).

(** A device whose raw readings are within the Gamepad API's ranges. *)
Definition rawInRange (g : Navigator.Gamepad) : Prop :=
  (4 <= length (Navigator.axes g))%nat /\
  Forall (fun v => -1 <= v <= 1) (Navigator.axes g) /\
  Forall (fun b => 0 <= Navigator.value b <= 1) (Navigator.buttons g).

(** A configuration with a deadzone in [0,1) and gains in [0,1]. *)
Definition gainsInUnit (config : GamepadConfig) : Prop :=
  (0 <= deadzone config /\ deadzone config < 1) /\
  (0 <= s_leftStick (sensitivity config) <= 1) /\
  (0 <= s_rightStick (sensitivity config) <= 1) /\
  (0 <= s_triggers (sensitivity config) <= 1).

Definition triggersInRange (bs : Buttons.t) : Prop :=
  (0 <= Buttons.lt bs <= 1) /\ (0 <= Buttons.rt bs <= 1).

(** Every device a poll event sees has raw readings within range; the two
    window events carry no readings. *)
Definition pollsInRange (e : HookEvent) : Prop :=
  match e with
  | Poll gamepads => forall g, In (Some g) gamepads -> rawInRange g
  | GamepadConnected _ | GamepadDisconnected _ => True
  end.

(** A device at full deflection of the left stick's x axis, within range. *)
Definition fullPad : Navigator.Gamepad :=
  {| Navigator.id := "pad"; Navigator.axes := [1; 0; 0; 0];
     Navigator.buttons := [] |}.

(** The default configuration with the left stick's gain doubled. *)
Definition doubledConfig : GamepadConfig :=
  {| deadzone := 0.1;
     sensitivity := {| s_leftStick := 2.0; s_rightStick := 1.0; s_triggers := 1.0 |};
     invertY := false |}.

(** A device whose left stick reports 1.2 on its x axis. *)
Definition overshootPad : Navigator.Gamepad :=
  {| Navigator.id := "pad"; Navigator.axes := [1.2; 0; 0; 0];
     Navigator.buttons := [] |}.

(** A device within range: the left stick rests inside the deadzone, the
    right stick is pushed to a corner, the right trigger is fully pressed. *)
Definition restingPad : Navigator.Gamepad :=
  {| Navigator.id := "pad"; Navigator.axes := [0.05; -0.02; 1; -1];
     Navigator.buttons :=
       [ Navigator.mkButton false 0; Navigator.mkButton false 0;
         Navigator.mkButton false 0; Navigator.mkButton false 0;
         Navigator.mkButton false 0; Navigator.mkButton true 1;
         Navigator.mkButton false 0; Navigator.mkButton true 1 ] |}.

(** A bound poller holding a snapshot with the left stick pushed and [a]
    pressed. *)
Definition boundHook : Hook :=
  {| gamepadState :=
       {| connected := true;
          leftStick := Vec2.mk 0.5 (-0.25);
          rightStick := Vec2.mk 0 1;
          buttons := setPressed Ba true Buttons.released |};
     gamepadIndex := Some 0%nat |}.

(** A connected snapshot with the left stick pushed half way. *)
Definition pushedState : GamepadState :=
  {| connected := true;
     leftStick := Vec2.mk 0.5 0;
     rightStick := Vec2.mk 0 0;
     buttons := Buttons.released |}.

Definition sentAt (t : Z) : Refs :=
  {| lastUpdateTime := t; previousState := Some pushedState |}.

(** A connected snapshot in precision mode: both sticks pushed, [rb] held. *)
Definition precisionState : GamepadState :=
  {| connected := true;
     leftStick := Vec2.mk 0.5 1;
     rightStick := Vec2.mk (-1) 0.25;
     buttons := setPressed Brb true Buttons.released |}.

(** Both triggers at 0.6, sticks at rest. *)
Definition bothTriggers : GamepadState :=
  {| connected := true;
     leftStick := Vec2.mk 0 0;
     rightStick := Vec2.mk 0 0;
     buttons := setAnalog Brt 0.6 (setAnalog Blt 0.6 Buttons.released) |}.

(** A device whose left stick sits just outside the deadzone, with the right
    trigger lightly pressed. *)
Definition creepingPad : Navigator.Gamepad :=
  {| Navigator.id := "pad"; Navigator.axes := [0.1045; 0; 0; 0];
     Navigator.buttons :=
       [ Navigator.mkButton false 0; Navigator.mkButton false 0;
         Navigator.mkButton false 0; Navigator.mkButton false 0;
         Navigator.mkButton false 0; Navigator.mkButton false 0;
         Navigator.mkButton false 0; Navigator.mkButton true 0.2 ] |}.

Definition creepingState : GamepadState :=
  gamepadState (pollGamepad DEFAULT_GAMEPAD_CONFIG [Some creepingPad] initialHook).

(** A resting snapshot whose only input is the [a] button. *)
Definition restingState : GamepadState :=
  {| connected := true;
     leftStick := Vec2.mk 0 0;
     rightStick := Vec2.mk 0 0;
     buttons := setPressed Ba true Buttons.released |}.

(** A socket after [n] further calls of [send] that put [frames] on the
    wire. *)
Definition afterSends (s : WebSocket) (frames : list GamepadControlMessage)
    (n : nat) : WebSocket :=
  {| readyState := readyState s; sent := sent s ++ frames;
     sendCalls := (sendCalls s + n)%nat |}.

(** The command a tick sends for a snapshot. *)
Definition commandOf (g : GamepadState) : GamepadControlMessage :=
  handleGripper g (controlMessage g).

Definition openSocket : WebSocket :=
  {| readyState := OPEN; sent := []; sendCalls := 0 |}.

(** What holds of the timeouts in every state of a session: handles are
    positive and below the next handle, and the only timeout that can be
    pending is the one [reconnectTimeout] names. *)
Definition timerInvariant (s : State) : Prop :=
  (forall id, reconnectTimeout s = Some id -> (1 <= id < nextTimeout s)%nat) /\
  (1 <= nextTimeout s)%nat /\
  (timers s = [] \/
   exists id due, timers s = [(id, due)] /\ reconnectTimeout s = Some id).

(** A session whose first socket has closed, with the application calling
    [connect] again before the reconnect timeout runs. *)
Definition afterFirstClose : State :=
  {| ws := Some 1%nat;
     reconnectTimeout := Some 1%nat;
     sockets := [withReadyState CLOSED freshSocket; freshSocket];
     timers := [(1%nat, 1000%Z)];
     nextTimeout := 2;
     clock := 0%Z;
     console := ["WebSocket disconnected"%string] |}.

(** A session that was connected and then torn down: the pending-timeout
    list is empty and the socket is closing. *)
Definition afterTeardown : State :=
  {| ws := Some 0%nat;
     reconnectTimeout := None;
     sockets := [withReadyState CLOSING freshSocket];
     timers := [];
     nextTimeout := 1;
     clock := 0%Z;
     console := ["WebSocket connected"%string] |}.

(** A poller bound to slot 1. *)
Definition boundAtOne : Hook :=
  {| gamepadState := initialState; gamepadIndex := Some 1%nat |}.

(** The [connected] flag says whether a device is bound. *)
Definition flagMatchesBinding (h : Hook) : Prop :=
  connected (gamepadState h)
  = match gamepadIndex h with Some _ => true | None => false end.

(** Each send is at least 17 ms after the one before it, the first one
    after [last]. *)
Fixpoint spaced (last : Z) (sends : list (Z * GamepadControlMessage)) : Prop :=
  match sends with
  | [] => True
  | (t, _) :: rest => (17 <= t - last)%Z /\ spaced t rest
  end.

(** At rest, with [lb] and the d-pad's up pressed. *)
Definition restingWithLb : GamepadState :=
  {| connected := true;
     leftStick := Vec2.mk 0 0;
     rightStick := Vec2.mk 0 0;
     buttons := setPressed BdpadUp true (setPressed Blb true Buttons.released) |}.

Definition sentResting : Refs :=
  {| lastUpdateTime := 1000%Z;
     previousState :=
       Some {| connected := true; leftStick := Vec2.mk 0 0;
               rightStick := Vec2.mk 0 0; buttons := Buttons.released |} |}.

(** The frames a connection has put on the wire. *)
Definition wire (ws : option WebSocket) : list GamepadControlMessage :=
  match ws with
  | Some s => sent s
  | None => []
  end.

(** Nothing can happen to the session any more: every socket is closed and
    no timeout is pending. *)
Definition halted (s : State) : Prop :=
  Forall (fun w => readyState w = CLOSED) (sockets s) /\ timers s = [].

(** The application leaves the session alone: no further [connect()]. *)
Definition leftAlone (events : list Event) : Prop :=
  Forall (fun e => e <> CallConnect) events.

(** The first socket has closed and its reconnect timeout is pending. *)
Definition backingOff : State :=
  {| ws := Some 0%nat;
     reconnectTimeout := Some 1%nat;
     sockets := [withReadyState CLOSED freshSocket];
     timers := [(1%nat, 1000%Z)];
     nextTimeout := 2;
     clock := 0%Z;
     console := ["WebSocket disconnected"%string] |}.

(** The session's current socket is the one created last. *)
Definition pointsToNewest (s : State) : Prop :=
  ws s = match sockets s with
         | [] => None
         | _ :: _ => Some (length (sockets s) - 1)%nat
         end.

(** Payloads are their own text, ["{"] does not parse; the observers' state
    is the list of payloads received, tagged by the handler. *)
Definition parseSample (data : string) : option string :=
  if String.eqb data "{" then None else Some data.

Definition recorder (tag : string) : Handler string (list string) :=
  fun message received => Normal (received ++ [(tag ++ message)%string]).

Definition faulty : Handler string (list string) :=
  fun _ received => Throw received.

(** * Properties *)

(** ** Numbers *)

Lemma Qltb_lt (a b : Q) : Qltb a b = true <-> a < b.
Proof.
  unfold Qltb. rewrite negb_true_iff.
  destruct (Qle_bool b a) eqn:E.
  - apply Qle_bool_iff in E. split; [discriminate | intros H; lra].
  - split; [intros _ | reflexivity].
    destruct (Qlt_le_dec a b) as [H | H]; [exact H |].
    apply Qle_bool_iff in H. congruence.
Qed.

Lemma Qltb_ge (a b : Q) : Qltb a b = false <-> b <= a.
Proof.
  destruct (Qltb a b) eqn:E.
  - apply Qltb_lt in E. split; [discriminate | intros H; lra].
  - split; [intros _ | reflexivity].
    destruct (Qlt_le_dec a b) as [H | H]; [| exact H].
    apply Qltb_lt in H. congruence.
Qed.

Lemma Qgtb_gt (a b : Q) : Qgtb a b = true <-> b < a.
Proof. apply Qltb_lt. Qed.

Lemma Qgtb_le (a b : Q) : Qgtb a b = false <-> a <= b.
Proof. apply Qltb_ge. Qed.

(** ** The signal conditioner *)

Lemma applyDeadzone_rest (value deadzone : Q) :
  Qabs value < deadzone -> applyDeadzone value deadzone = 0.
Proof.
  intros H. unfold applyDeadzone.
  apply Qltb_lt in H. now rewrite H.
Qed.

Lemma applyDeadzone_active (value deadzone : Q) :
  0 <= deadzone -> deadzone <= Qabs value ->
  applyDeadzone value deadzone
  == sign value * ((Qabs value - deadzone) / (1 - deadzone)).
Proof.
  intros Hd H. unfold applyDeadzone, sign.
  apply Qltb_ge in H. rewrite H.
  destruct (Qgtb value 0) eqn:Hp; [reflexivity |].
  destruct (Qltb value 0) eqn:Hn; [reflexivity |].
  apply Qgtb_le in Hp. apply Qltb_ge in Hn. apply Qltb_ge in H.
  assert (Hv : value == 0) by lra.
  assert (Ha : Qabs value == 0) by (rewrite Hv; reflexivity).
  assert (Hz : deadzone == 0) by lra.
  rewrite Ha, Hz. reflexivity.
Qed.

(** Beyond the deadzone the magnitude is the rescaled excess. *)
Lemma applyDeadzone_abs (value deadzone : Q) :
  0 <= deadzone -> deadzone < 1 -> deadzone <= Qabs value ->
  Qabs (applyDeadzone value deadzone)
  == (Qabs value - deadzone) / (1 - deadzone).
Proof.
  intros Hd H1 H. unfold applyDeadzone.
  apply Qltb_ge in H. rewrite H. apply Qltb_ge in H.
  assert (Hk : 0 <= (Qabs value - deadzone) / (1 - deadzone)).
  { apply Qle_shift_div_l; lra. }
  rewrite Qabs_Qmult, (Qabs_pos _ Hk).
  destruct (Qgtb value 0).
  - change (Qabs 1) with 1. ring.
  - change (Qabs (-1)) with 1. ring.
Qed.

Lemma condition_boundary (raw0 deadzone gain : Q) :
  0 <= deadzone -> deadzone < 1 -> Qabs raw0 == deadzone ->
  condition raw0 deadzone gain == 0.
Proof.
  intros Hd H1 Hb. unfold condition.
  rewrite applyDeadzone_active by lra.
  rewrite Hb. field. lra.
Qed.

(** Within [delta] of the deadzone boundary the conditioned value is within
    [delta * |gain| / (1 - deadzone)] of zero. *)
Lemma condition_small (r deadzone gain delta : Q) :
  0 <= deadzone -> deadzone < 1 -> 0 < delta ->
  Qabs r - deadzone < delta ->
  Qabs (condition r deadzone gain) * (1 - deadzone) <= delta * Qabs gain.
Proof.
  intros Hd H1 Hdelta Hr. unfold condition.
  pose proof (Qabs_nonneg gain) as Hg.
  rewrite Qabs_Qmult.
  destruct (Qlt_le_dec (Qabs r) deadzone) as [Hin | Hout].
  - rewrite (applyDeadzone_rest _ _ Hin). change (Qabs 0) with 0. nra.
  - rewrite (applyDeadzone_abs _ _ Hd H1 Hout).
    assert (E : (Qabs r - deadzone) / (1 - deadzone) * Qabs gain * (1 - deadzone)
                == (Qabs r - deadzone) * Qabs gain) by (field; lra).
    rewrite E. nra.
Qed.

Lemma condition_continuous_at_boundary (raw0 deadzone gain eps : Q) :
  0 <= deadzone -> deadzone < 1 -> Qabs raw0 == deadzone -> 0 < eps ->
  exists delta, 0 < delta /\
    forall r, Qabs (r - raw0) < delta ->
      Qabs (condition r deadzone gain - condition raw0 deadzone gain) < eps.
Proof.
  intros Hd H1 Hb Heps.
  pose proof (Qabs_nonneg gain) as Hg.
  set (delta := eps * (1 - deadzone) / (Qabs gain + 1)).
  assert (Hdelta : delta * (Qabs gain + 1) == eps * (1 - deadzone))
    by (unfold delta; field; lra).
  assert (Hpos : 0 < delta).
  { unfold delta. apply Qlt_shift_div_l; [lra | nra]. }
  exists delta. split; [exact Hpos |].
  intros r Hr.
  rewrite (condition_boundary raw0 deadzone gain Hd H1 Hb).
  assert (Hnear : Qabs r - deadzone < delta).
  { pose proof (Qabs_triangle_reverse r raw0) as Ht. lra. }
  pose proof (condition_small r deadzone gain delta Hd H1 Hpos Hnear) as Hs.
  assert (E : condition r deadzone gain - 0 == condition r deadzone gain) by ring.
  rewrite E.
  apply (Qmult_lt_r _ _ (1 - deadzone)); [lra |].
  nra.
Qed.

(** C2. The conditioner [applyDeadzone(raw, deadzone) * gain], for a
    deadzone in [0,1): it is exactly 0 when [|raw| < deadzone]; otherwise it
    is [sign(raw) * ((|raw| - deadzone) / (1 - deadzone)) * gain]; on
    [(0.5, 0.1, 1.0)] it is [(0.5 - 0.1) / (1 - 0.1)], within a thousandth of
    0.444; and it is continuous at the two points where [|raw| = deadzone]. *)
Theorem condition_spec (raw deadzone gain : Q) :
  0 <= deadzone -> deadzone < 1 ->
  (Qabs raw < deadzone ->
     applyDeadzone raw deadzone = 0 /\ condition raw deadzone gain == 0)
  /\ (~ Qabs raw < deadzone ->
        condition raw deadzone gain
        == sign raw * ((Qabs raw - deadzone) / (1 - deadzone)) * gain)
  /\ (condition 0.5 0.1 1.0 == (0.5 - 0.1) / (1 - 0.1)
      /\ Qabs (condition 0.5 0.1 1.0 - 0.444) < 0.001)
  /\ (forall raw0 eps, Qabs raw0 == deadzone -> 0 < eps ->
        exists delta, 0 < delta /\
          forall r, Qabs (r - raw0) < delta ->
            Qabs (condition r deadzone gain - condition raw0 deadzone gain) < eps).
Proof.
  intros Hd H1. repeat split.
  - now apply applyDeadzone_rest.
  - unfold condition. rewrite (applyDeadzone_rest raw deadzone) by assumption. ring.
  - intros Hout. unfold condition.
    rewrite applyDeadzone_active; [reflexivity | exact Hd |].
    destruct (Qlt_le_dec (Qabs raw) deadzone); [contradiction | assumption].
  - intros raw0 eps Hb Heps.
    now apply condition_continuous_at_boundary.
Qed.

Lemma condition_spec_witness :
  applyDeadzone 0.05 0.1 = 0 /\ condition 0.05 0.1 2 == 0.
Proof.
  apply (condition_spec 0.05 0.1 2); [lra | lra | ].
  vm_compute. reflexivity.
Defined.

(** ** The device poller *)

Lemma Qabs_unit (q : Q) : Qabs q <= 1 <-> -1 <= q <= 1.
Proof.
  split; intros H.
  - apply Qabs_Qle_condition in H. destruct H. split; lra.
  - apply Qabs_Qle_condition. destruct H. split; lra.
Qed.

Lemma applyDeadzone_unit (value deadzone : Q) :
  0 <= deadzone -> deadzone < 1 -> -1 <= value <= 1 ->
  Qabs (applyDeadzone value deadzone) <= 1.
Proof.
  intros Hd H1 Hv.
  assert (Ha : Qabs value <= 1) by now apply Qabs_unit.
  destruct (Qlt_le_dec (Qabs value) deadzone) as [Hin | Hout].
  - rewrite (applyDeadzone_rest _ _ Hin). change (Qabs 0) with 0. lra.
  - rewrite (applyDeadzone_abs _ _ Hd H1 Hout).
    apply Qle_shift_div_r; lra.
Qed.

Lemma condition_unit (raw deadzone gain : Q) :
  0 <= deadzone -> deadzone < 1 -> 0 <= gain <= 1 -> -1 <= raw <= 1 ->
  Qabs (condition raw deadzone gain) <= 1.
Proof.
  intros Hd H1 Hg Hv. unfold condition.
  pose proof (applyDeadzone_unit raw deadzone Hd H1 Hv) as Ha.
  pose proof (Qabs_nonneg (applyDeadzone raw deadzone)) as Hn.
  rewrite Qabs_Qmult, (Qabs_pos gain) by lra. nra.
Qed.

Lemma invertSign_abs (config : GamepadConfig) (q : Q) :
  Qabs (q * invertSign config) == Qabs q.
Proof.
  rewrite Qabs_Qmult. unfold invertSign.
  destruct (invertY config).
  - change (Qabs (-1)) with 1. ring.
  - change (Qabs 1) with 1. ring.
Qed.

Lemma axis_in_range (g : Navigator.Gamepad) (i : nat) :
  Forall (fun v => -1 <= v <= 1) (Navigator.axes g) ->
  -1 <= Navigator.axis g i <= 1.
Proof.
  intros Hall. unfold Navigator.axis.
  destruct (Navigator.axes g !! i) as [v |] eqn:E; simpl.
  - rewrite Forall_forall in Hall. apply Hall.
    apply list_elem_of_In, list_elem_of_lookup. eauto.
  - lra.
Qed.

Lemma assignButton_triggers (config : GamepadConfig) (bs : Buttons.t)
    (button : Navigator.GamepadButton) (index : nat) :
  0 <= s_triggers (sensitivity config) <= 1 ->
  0 <= Navigator.value button <= 1 ->
  triggersInRange bs ->
  triggersInRange (assignButton config bs button index).
Proof.
  intros Hs Hv [Hl Hr]. unfold assignButton.
  destruct (GAMEPAD_BUTTON_MAPPING index) as [name |]; [| now split].
  destruct bs; simpl in Hl, Hr.
  destruct name; unfold triggersInRange; simpl; split; try assumption; nra.
Qed.

Lemma forEachButton_triggers (config : GamepadConfig)
    (l : list Navigator.GamepadButton) :
  0 <= s_triggers (sensitivity config) <= 1 ->
  Forall (fun b => 0 <= Navigator.value b <= 1) l ->
  forall index bs,
    triggersInRange bs -> triggersInRange (forEachButton config l index bs).
Proof.
  intros Hs Hall. induction Hall as [| button rest Hb _ IH]; intros index bs Hbs.
  - exact Hbs.
  - simpl. apply IH. now apply assignButton_triggers.
Qed.

Lemma readGamepad_in_range (config : GamepadConfig) (g : Navigator.Gamepad) :
  gainsInUnit config -> rawInRange g -> analogInRange (readGamepad config g).
Proof.
  intros [[Hd H1] [Hl [Hr Ht]]] [_ [Hax Hbt]].
  assert (Htr : triggersInRange
                  (forEachButton config (Navigator.buttons g) 0 Buttons.released)).
  { apply forEachButton_triggers; [exact Ht | exact Hbt |].
    split; simpl; lra. }
  destruct Htr as [Hlt Hrt].
  unfold analogInRange, readGamepad; simpl.
  split; [| split; [| split; [| split; [| split; [exact Hlt | exact Hrt]]]]];
    apply Qabs_unit; rewrite ?invertSign_abs;
    apply condition_unit; auto using axis_in_range.
Qed.

(** A poll that leaves the poller bound has read the bound device. *)
Lemma pollGamepad_bound (config : GamepadConfig)
    (gamepads : list (option Navigator.Gamepad)) (h : Hook) (i : nat) :
  gamepadIndex (pollGamepad config gamepads h) = Some i ->
  exists g, gamepads !! i = Some (Some g) /\
            gamepadState (pollGamepad config gamepads h) = readGamepad config g.
Proof.
  unfold pollGamepad.
  destruct (match gamepadIndex h with
            | Some i0 => Some i0
            | None => firstLive gamepads 0
            end) as [j |]; [| discriminate].
  destruct (gamepads !! j) as [[g |] |] eqn:E; simpl; try discriminate.
  intros [= <-]. eauto.
Qed.

(** Every other poll keeps the analog fields of the previous snapshot. *)
Lemma pollGamepad_unbound (config : GamepadConfig)
    (gamepads : list (option Navigator.Gamepad)) (h : Hook) :
  gamepadIndex (pollGamepad config gamepads h) = None ->
  leftStick (gamepadState (pollGamepad config gamepads h)) = leftStick (gamepadState h) /\
  rightStick (gamepadState (pollGamepad config gamepads h)) = rightStick (gamepadState h) /\
  buttons (gamepadState (pollGamepad config gamepads h)) = buttons (gamepadState h).
Proof.
  unfold pollGamepad.
  destruct (match gamepadIndex h with
            | Some i0 => Some i0
            | None => firstLive gamepads 0
            end) as [j |]; [| auto].
  destruct (gamepads !! j) as [[g |] |]; simpl; try discriminate; auto.
Qed.

(** C4, as stated, fails: nothing clamps a raw reading or a conditioned
    value.  With the default configuration, a raw x axis of 1.2 is
    conditioned to [(1.2 - 0.1) / (1 - 0.1) = 11/9], outside [-1,1]; and with
    a gain of 2 a raw x axis of 1, itself within range, is conditioned to 2. *)
Lemma analog_range_overshoot :
  (Vec2.x (leftStick (gamepadState
             (pollGamepad DEFAULT_GAMEPAD_CONFIG [Some overshootPad] initialHook)))
   == 11 # 9
   /\ ~ analogInRange (gamepadState
          (pollGamepad DEFAULT_GAMEPAD_CONFIG [Some overshootPad] initialHook)))
  /\
  (rawInRange fullPad
   /\ Vec2.x (leftStick (gamepadState
                (pollGamepad doubledConfig [Some fullPad] initialHook)))
      == 2
   /\ ~ analogInRange (gamepadState
          (pollGamepad doubledConfig [Some fullPad] initialHook))).
Proof.
  split.
  - split; [reflexivity |].
    intros [[_ H] _]. revert H. apply Qlt_not_le. reflexivity.
  - split; [| split; [reflexivity |]].
    + split; [simpl; lia |]. split; repeat constructor; simpl; lra.
    + intros [[_ H] _]. revert H. apply Qlt_not_le. reflexivity.
Qed.

Lemma pollGamepad_keeps_range (config : GamepadConfig)
    (gamepads : list (option Navigator.Gamepad)) (h : Hook) :
  gainsInUnit config ->
  (forall g, In (Some g) gamepads -> rawInRange g) ->
  analogInRange (gamepadState h) ->
  analogInRange (gamepadState (pollGamepad config gamepads h)).
Proof.
  intros Hc Hraw Hprev.
  destruct (gamepadIndex (pollGamepad config gamepads h)) as [i |] eqn:E.
  - destruct (pollGamepad_bound _ _ _ _ E) as [g [Hg ->]].
    apply readGamepad_in_range; [exact Hc |].
    apply Hraw, list_elem_of_In, list_elem_of_lookup. eauto.
  - destruct (pollGamepad_unbound _ _ _ E) as [Hl [Hr Hb]].
    unfold analogInRange. rewrite Hl, Hr, Hb. exact Hprev.
Qed.

Lemma hookStep_keeps_range (config : GamepadConfig) (e : HookEvent) (h : Hook) :
  gainsInUnit config -> pollsInRange e ->
  analogInRange (gamepadState h) ->
  analogInRange (gamepadState (hookStep config e h)).
Proof.
  intros Hc He Hprev. destruct e as [gamepads | index | index]; simpl.
  - now apply pollGamepad_keeps_range.
  - exact Hprev.
  - unfold handleGamepadDisconnected.
    destruct (gamepadIndex h) as [i |]; [| exact Hprev].
    destruct (Nat.eqb i index); exact Hprev.
Qed.

Lemma hookRun_keeps_range (config : GamepadConfig) (events : list HookEvent) :
  gainsInUnit config -> Forall pollsInRange events ->
  forall h,
    analogInRange (gamepadState h) ->
    analogInRange (gamepadState (hookRun config events h)).
Proof.
  intros Hc Hall. unfold hookRun.
  induction Hall as [| e rest He _ IH]; intros h Hprev; [exact Hprev |].
  simpl. apply IH. now apply hookStep_keeps_range.
Qed.

Lemma mount_in_range (present : list (option Navigator.Gamepad)) :
  analogInRange (gamepadState (mount present)).
Proof.
  unfold mount, checkInitialGamepads.
  destruct (firstLive present 0); unfold analogInRange; simpl; lra.
Qed.

(** C4, amended.  With a configuration whose deadzone is in [0,1) and whose
    gains are in [0,1], and as long as every device polled since the mount
    has its raw readings within the Gamepad API's ranges (four axes in
    [-1,1], button values in [0,1]), every poll tick emits a snapshot whose
    analog fields are all within their declared ranges, whatever polls and
    connection events came before.  And for every poll that reads the bound
    device, whatever the configuration and the other readings, a stick axis
    that the device reports with a raw magnitude below the deadzone is
    exactly zero in the snapshot. *)
Theorem pollGamepad_analog_range (config : GamepadConfig)
    (present : list (option Navigator.Gamepad)) (events : list HookEvent)
    (gamepads : list (option Navigator.Gamepad)) :
  (gainsInUnit config ->
   Forall pollsInRange events ->
   (forall g, In (Some g) gamepads -> rawInRange g) ->
   analogInRange
     (gamepadState
        (pollGamepad config gamepads (hookRun config events (mount present)))))
  /\
  (forall h i g,
     gamepadIndex (pollGamepad config gamepads h) = Some i ->
     gamepads !! i = Some (Some g) ->
     let snapshot := gamepadState (pollGamepad config gamepads h) in
     (forall raw, Navigator.axes g !! 0%nat = Some raw ->
        Qabs raw < deadzone config -> Vec2.x (leftStick snapshot) == 0) /\
     (forall raw, Navigator.axes g !! 1%nat = Some raw ->
        Qabs raw < deadzone config -> Vec2.y (leftStick snapshot) == 0) /\
     (forall raw, Navigator.axes g !! 2%nat = Some raw ->
        Qabs raw < deadzone config -> Vec2.x (rightStick snapshot) == 0) /\
     (forall raw, Navigator.axes g !! 3%nat = Some raw ->
        Qabs raw < deadzone config -> Vec2.y (rightStick snapshot) == 0)).
Proof.
  split.
  - intros Hc Hevents Hraw.
    apply pollGamepad_keeps_range; [exact Hc | exact Hraw |].
    apply hookRun_keeps_range; [exact Hc | exact Hevents |].
    apply mount_in_range.
  - intros h i g E Hg snapshot. subst snapshot.
    destruct (pollGamepad_bound _ _ _ _ E) as [g' [Hg' ->]].
    assert (g' = g) by congruence. subst g'.
    unfold readGamepad, condition, Navigator.axis.
    cbn [leftStick rightStick Vec2.x Vec2.y].
    split; [| split; [| split]]; intros raw Hraw Hrest; rewrite Hraw;
      cbn [default from_option id]; rewrite (applyDeadzone_rest _ _ Hrest); ring.
Qed.

Lemma rawInRange_restingPad : rawInRange restingPad.
Proof.
  split; [simpl; lia |].
  split; repeat constructor; simpl; lra.
Defined.

(** A poll, the loss of the device, and a poll that finds it again. *)
Lemma pollGamepad_analog_range_witness :
  analogInRange (gamepadState
    (pollGamepad DEFAULT_GAMEPAD_CONFIG [Some restingPad]
       (hookRun DEFAULT_GAMEPAD_CONFIG
          [Poll [Some restingPad]; GamepadDisconnected 0] (mount []))))
  /\ Vec2.x (leftStick (gamepadState
       (pollGamepad DEFAULT_GAMEPAD_CONFIG [Some restingPad] initialHook))) == 0.
Proof.
  destruct (pollGamepad_analog_range DEFAULT_GAMEPAD_CONFIG []
              [Poll [Some restingPad]; GamepadDisconnected 0] [Some restingPad])
    as [Hrange Hrest].
  split.
  - apply Hrange.
    + unfold gainsInUnit; simpl; lra.
    + constructor; [| constructor; [exact I | constructor]].
      intros g [[= <-] | []]. exact rawInRange_restingPad.
    + intros g [[= <-] | []]. exact rawInRange_restingPad.
  - destruct (Hrest initialHook 0%nat restingPad eq_refl eq_refl) as [Hx _].
    apply (Hx 0.05); reflexivity.
Defined.

(** C10.  When the bound index no longer reports a live device (a null
    slot, or none at all), the poll clears the [connected] flag and unbinds
    the index, and leaves both sticks and every button field as they were. *)
Theorem pollGamepad_device_lost (config : GamepadConfig)
    (gamepads : list (option Navigator.Gamepad)) (h : Hook) (i : nat) :
  gamepadIndex h = Some i ->
  (gamepads !! i = None \/ gamepads !! i = Some None) ->
  let h' := pollGamepad config gamepads h in
  gamepadIndex h' = None /\
  connected (gamepadState h') = false /\
  leftStick (gamepadState h') = leftStick (gamepadState h) /\
  rightStick (gamepadState h') = rightStick (gamepadState h) /\
  buttons (gamepadState h') = buttons (gamepadState h).
Proof.
  intros Hi Hlost h'. subst h'. unfold pollGamepad. rewrite Hi.
  destruct Hlost as [-> | ->]; simpl; auto.
Qed.

Lemma pollGamepad_device_lost_witness :
  gamepadIndex (pollGamepad DEFAULT_GAMEPAD_CONFIG [None] boundHook) = None /\
  connected (gamepadState (pollGamepad DEFAULT_GAMEPAD_CONFIG [None] boundHook)) = false /\
  leftStick (gamepadState (pollGamepad DEFAULT_GAMEPAD_CONFIG [None] boundHook))
    = Vec2.mk 0.5 (-0.25) /\
  rightStick (gamepadState (pollGamepad DEFAULT_GAMEPAD_CONFIG [None] boundHook))
    = Vec2.mk 0 1 /\
  buttons (gamepadState (pollGamepad DEFAULT_GAMEPAD_CONFIG [None] boundHook))
    = setPressed Ba true Buttons.released.
Proof.
  apply (pollGamepad_device_lost DEFAULT_GAMEPAD_CONFIG [None] boundHook 0%nat).
  - reflexivity.
  - right. reflexivity.
Defined.

(** ** The command throttler *)

(** What a tick that sends has sent, and the bookkeeping it leaves. *)
Lemma effect_sent (gamepadState : GamepadState) (now : Z) (r r' : Refs)
    (m : GamepadControlMessage) :
  effect gamepadState now r = (Some m, r') ->
  m = handleGripper gamepadState (controlMessage gamepadState) /\
  r' = {| lastUpdateTime := now; previousState := Some gamepadState |}.
Proof.
  unfold effect.
  destruct (negb (connected gamepadState)); [discriminate |].
  destruct (Qltb _ CONTROL_UPDATE_INTERVAL); [discriminate |].
  destruct (match previousState r with Some _ => _ | None => false end);
    [discriminate |].
  intros [= <- <-]. split; reflexivity.
Qed.

Lemma handleGripper_deltas (gamepadState : GamepadState) (m : GamepadControlMessage) :
  deltas (handleGripper gamepadState m) = deltas m.
Proof.
  unfold handleGripper.
  destruct (Qgtb _ _); [reflexivity |]. destruct (Qgtb _ _); reflexivity.
Qed.

(** C1, as stated, fails: the interval is [1000 / 60] ms, not 60 ms.  A
    snapshot arriving 20 ms after the previous send, with the stick pushed,
    is sent. *)
Lemma throttle_20ms_is_sent :
  (1020 - lastUpdateTime (sentAt 1000) < 60)%Z /\
  exists m, effect pushedState 1020 (sentAt 1000)
            = (Some m, {| lastUpdateTime := 1020%Z; previousState := Some pushedState |}).
Proof.
  split; [reflexivity |].
  eexists. reflexivity.
Qed.

(** C1, amended.  A tick whose snapshot arrives less than
    [CONTROL_UPDATE_INTERVAL = 1000 / 60] ms (about 16.67 ms: 16 ms or less
    on the integer clock) after the time of the previously sent command
    sends nothing and leaves the bookkeeping as it was, whatever the
    snapshot holds. *)
Theorem throttle_interval (gamepadState : GamepadState) (now : Z) (r : Refs) :
  inject_Z (now - lastUpdateTime r) < 1000 / 60 ->
  effect gamepadState now r = (None, r).
Proof.
  intros H. unfold effect.
  destruct (negb (connected gamepadState)); [reflexivity |].
  apply Qltb_lt in H.
  change (1000 / 60) with CONTROL_UPDATE_INTERVAL in H.
  now rewrite H.
Qed.

Lemma throttle_interval_witness :
  effect pushedState 1016 (sentAt 1000) = (None, sentAt 1000).
Proof.
  apply (throttle_interval pushedState 1016 (sentAt 1000)).
  reflexivity.
Defined.

(** C7.  A sent command has the speed multiplier 0.03 when [rb] is held and
    0.15 otherwise, and its deltas are [x = leftStick.x * multiplier],
    [y = -leftStick.y * multiplier], [z = -rightStick.y * multiplier],
    [wrist = rightStick.x * multiplier]. *)
Theorem sent_deltas (gamepadState : GamepadState) (now : Z) (r r' : Refs)
    (m : GamepadControlMessage) :
  effect gamepadState now r = (Some m, r') ->
  let multiplier := speedMultiplier gamepadState in
  (Buttons.rb (buttons gamepadState) = true -> multiplier = 0.03) /\
  (Buttons.rb (buttons gamepadState) = false -> multiplier = 0.15) /\
  Deltas.x (deltas m) == Vec2.x (leftStick gamepadState) * multiplier /\
  Deltas.y (deltas m) == - Vec2.y (leftStick gamepadState) * multiplier /\
  Deltas.z (deltas m) == - Vec2.y (rightStick gamepadState) * multiplier /\
  Deltas.wrist (deltas m) == Vec2.x (rightStick gamepadState) * multiplier.
Proof.
  intros Hsent multiplier. subst multiplier.
  apply effect_sent in Hsent. destruct Hsent as [-> _].
  rewrite handleGripper_deltas. unfold speedMultiplier. simpl.
  split; [intros ->; reflexivity |].
  split; [intros ->; reflexivity |].
  repeat split; reflexivity.
Qed.

Lemma sent_deltas_witness :
  Deltas.x (deltas (handleGripper precisionState (controlMessage precisionState)))
    == 0.5 * 0.03 /\
  Deltas.y (deltas (handleGripper precisionState (controlMessage precisionState)))
    == - (1) * 0.03.
Proof.
  destruct (sent_deltas precisionState 1000 initialRefs
              {| lastUpdateTime := 1000%Z; previousState := Some precisionState |}
              (handleGripper precisionState (controlMessage precisionState))
              eq_refl)
    as [_ [_ [Hx [Hy _]]]].
  split; [exact Hx | exact Hy].
Defined.

(** C8.  A sent command carries exactly one gripper value: [open] when the
    right trigger exceeds 0.5; otherwise [close] when the left trigger
    exceeds 0.5; otherwise [stay].  In particular, with both triggers above
    0.5 the gripper is [open]. *)
Theorem sent_gripper (gamepadState : GamepadState) (now : Z) (r r' : Refs)
    (m : GamepadControlMessage) :
  effect gamepadState now r = (Some m, r') ->
  let lt := Buttons.lt (buttons gamepadState) in
  let rt := Buttons.rt (buttons gamepadState) in
  (exists g, gripper m = Some g /\ forall g', gripper m = Some g' -> g' = g) /\
  (0.5 < rt -> gripper m = Some open) /\
  (rt <= 0.5 -> 0.5 < lt -> gripper m = Some close) /\
  (rt <= 0.5 -> lt <= 0.5 -> gripper m = Some stay) /\
  (0.5 < rt -> 0.5 < lt -> gripper m = Some open).
Proof.
  intros Hsent lt rt. subst lt rt.
  apply effect_sent in Hsent. destruct Hsent as [-> _].
  unfold handleGripper.
  destruct (Qgtb (Buttons.rt (buttons gamepadState)) 0.5) eqn:Hrt;
    [apply Qgtb_gt in Hrt | apply Qgtb_le in Hrt];
    (destruct (Qgtb (Buttons.lt (buttons gamepadState)) 0.5) eqn:Hlt;
      [apply Qgtb_gt in Hlt | apply Qgtb_le in Hlt]);
    simpl;
    (split; [eexists; split; [reflexivity | congruence] |]);
    repeat split; intros; try reflexivity; lra.
Qed.

Lemma sent_gripper_witness :
  gripper (handleGripper bothTriggers (controlMessage bothTriggers)) = Some open.
Proof.
  destruct (sent_gripper bothTriggers 1000 initialRefs
              {| lastUpdateTime := 1000%Z; previousState := Some bothTriggers |}
              (handleGripper bothTriggers (controlMessage bothTriggers))
              eq_refl)
    as [_ [_ [_ [_ Hboth]]]].
  apply Hboth; reflexivity.
Defined.

(** C9, as stated, fails: a command is also sent for a trigger, a button
    change or the first tick, and its deltas are the stick values times the
    multiplier, whatever their size.  The polled snapshot of [creepingPad]
    has [leftStick.x = 0.005], below the movement threshold; the command
    sent for its trigger has [deltas.x = 0.00075]. *)
Lemma no_movement_nonzero_delta :
  hasMovement creepingState = false /\
  exists m r',
    effect creepingState 1000 initialRefs = (Some m, r') /\
    Deltas.x (deltas m) == 0.00075 /\
    ~ Deltas.x (deltas m) == 0.
Proof.
  split; [reflexivity |].
  eexists. eexists. split; [reflexivity |].
  split; [reflexivity | discriminate].
Qed.

Lemma product_small (v k : Q) :
  Qabs v <= 0.01 -> 0 <= k <= 0.15 -> Qabs (v * k) <= 0.0015.
Proof.
  intros Hv Hk. pose proof (Qabs_nonneg v) as Hn.
  rewrite Qabs_Qmult, (Qabs_pos k) by lra. nra.
Qed.

Lemma hasMovement_false (g : GamepadState) :
  hasMovement g = false ->
  Qabs (Vec2.x (leftStick g)) <= 0.01 /\ Qabs (Vec2.y (leftStick g)) <= 0.01 /\
  Qabs (Vec2.x (rightStick g)) <= 0.01 /\ Qabs (Vec2.y (rightStick g)) <= 0.01.
Proof.
  unfold hasMovement. rewrite !orb_false_iff, !Qgtb_le. tauto.
Qed.

Lemma speedMultiplier_bounds (g : GamepadState) :
  0 <= speedMultiplier g <= 0.15.
Proof. unfold speedMultiplier. destruct (Buttons.rb (buttons g)); lra. Qed.

(** C9, amended.  In a sent command each delta is exactly zero when the
    stick axis it is computed from is exactly zero; and when no movement
    input is active (every stick axis magnitude at or below 0.01) every
    delta has magnitude at most [0.01 * 0.15 = 0.0015]. *)
Theorem sent_deltas_at_rest (gamepadState : GamepadState) (now : Z) (r r' : Refs)
    (m : GamepadControlMessage) :
  effect gamepadState now r = (Some m, r') ->
  ((Vec2.x (leftStick gamepadState) == 0 -> Deltas.x (deltas m) == 0) /\
   (Vec2.y (leftStick gamepadState) == 0 -> Deltas.y (deltas m) == 0) /\
   (Vec2.y (rightStick gamepadState) == 0 -> Deltas.z (deltas m) == 0) /\
   (Vec2.x (rightStick gamepadState) == 0 -> Deltas.wrist (deltas m) == 0))
  /\
  (hasMovement gamepadState = false ->
   Qabs (Deltas.x (deltas m)) <= 0.0015 /\ Qabs (Deltas.y (deltas m)) <= 0.0015 /\
   Qabs (Deltas.z (deltas m)) <= 0.0015 /\ Qabs (Deltas.wrist (deltas m)) <= 0.0015).
Proof.
  intros Hsent.
  apply effect_sent in Hsent. destruct Hsent as [-> _].
  rewrite handleGripper_deltas. unfold controlMessage.
  cbn [deltas Deltas.x Deltas.y Deltas.z Deltas.wrist]. split.
  - split; [| split; [| split]]; intros ->; ring.
  - intros Hrest. apply hasMovement_false in Hrest.
    destruct Hrest as [Hlx [Hly [Hrx Hry]]].
    pose proof (speedMultiplier_bounds gamepadState) as Hk.
    split; [| split; [| split]];
      apply product_small; rewrite ?Qabs_opp; assumption.
Qed.

Lemma sent_deltas_at_rest_witness :
  Deltas.x (deltas (handleGripper restingState (controlMessage restingState))) == 0 /\
  Qabs (Deltas.wrist (deltas (handleGripper restingState (controlMessage restingState))))
    <= 0.0015.
Proof.
  destruct (sent_deltas_at_rest restingState 1000 initialRefs
              {| lastUpdateTime := 1000%Z; previousState := Some restingState |}
              (handleGripper restingState (controlMessage restingState))
              eq_refl)
    as [[Hx _] Hsmall].
  split.
  - apply Hx. reflexivity.
  - apply Hsmall. reflexivity.
Defined.

(** ** The queueing send wrapper *)

Section ServiceProperties.
Variable throws : nat -> bool.

Lemma ws_send_ok (message : GamepadControlMessage) (s : WebSocket) :
  readyState s = OPEN -> throws (sendCalls s) = false ->
  ws_send throws message s = Normal (afterSends s [message] 1).
Proof.
  intros Ho Ht. unfold ws_send, afterSends. rewrite Ho, Ht.
  now rewrite Nat.add_1_r.
Qed.

Lemma ws_send_throws (message : GamepadControlMessage) (s : WebSocket) :
  readyState s = OPEN -> throws (sendCalls s) = true ->
  ws_send throws message s = Throw (afterSends s [] 1).
Proof.
  intros Ho Ht. unfold ws_send, afterSends. rewrite Ho, Ht.
  now rewrite Nat.add_1_r, app_nil_r.
Qed.

Lemma afterSends_afterSends (s : WebSocket) (f g : list GamepadControlMessage)
    (n k : nat) :
  afterSends (afterSends s f n) g k = afterSends s (f ++ g) (n + k).
Proof.
  unfold afterSends; simpl. now rewrite app_assoc, Nat.add_assoc.
Qed.

(** A drain on which no call throws empties the queue onto the wire, in
    queue order. *)
Lemma drain_all (queue : list GamepadControlMessage) :
  forall s,
    readyState s = OPEN ->
    (forall k, (k < length queue)%nat -> throws (sendCalls s + k) = false) ->
    drain throws queue s = ([], afterSends s queue (length queue)).
Proof.
  induction queue as [| message rest IH]; intros s Ho Hok.
  - simpl. unfold afterSends. rewrite app_nil_r, Nat.add_0_r.
    now destruct s.
  - simpl drain. rewrite ws_send_ok; [| exact Ho |].
    + rewrite IH; [| exact Ho |].
      * now rewrite afterSends_afterSends.
      * intros k Hk. simpl sendCalls.
        replace (sendCalls s + 1 + k)%nat with (sendCalls s + S k)%nat by lia.
        apply Hok. simpl. lia.
    + specialize (Hok 0%nat). rewrite Nat.add_0_r in Hok.
      apply Hok. simpl. lia.
Qed.

(** A drain whose call on [failed] throws stops there: what precedes it is
    on the wire, [failed] is back at the head of the queue, and nothing
    behind it was tried. *)
Lemma drain_abort (pre : list GamepadControlMessage) :
  forall s failed post,
    readyState s = OPEN ->
    (forall k, (k < length pre)%nat -> throws (sendCalls s + k) = false) ->
    throws (sendCalls s + length pre) = true ->
    drain throws (pre ++ failed :: post) s
    = (failed :: post, afterSends s pre (length pre + 1)).
Proof.
  induction pre as [| message rest IH]; intros s failed post Ho Hok Hfail.
  - simpl in *. rewrite Nat.add_0_r in Hfail.
    now rewrite ws_send_throws.
  - simpl app. simpl drain. rewrite ws_send_ok; [| exact Ho |].
    + rewrite IH; [| exact Ho | |].
      * now rewrite afterSends_afterSends.
      * intros k Hk. simpl sendCalls.
        replace (sendCalls s + 1 + k)%nat with (sendCalls s + S k)%nat by lia.
        apply Hok. simpl. lia.
      * simpl sendCalls.
        replace (sendCalls s + 1 + length rest)%nat
          with (sendCalls s + length (message :: rest))%nat by (simpl; lia).
        exact Hfail.
    + specialize (Hok 0%nat). rewrite Nat.add_0_r in Hok.
      apply Hok. simpl. lia.
Qed.

(** Whatever throws, a drain puts a prefix of the queue on the wire, in
    order, and keeps the rest of the queue, in order. *)
Lemma drain_fifo (queue : list GamepadControlMessage) :
  forall s,
    readyState s = OPEN ->
    exists pre,
      queue = pre ++ fst (drain throws queue s) /\
      sent (snd (drain throws queue s)) = sent s ++ pre /\
      readyState (snd (drain throws queue s)) = OPEN.
Proof.
  induction queue as [| message rest IH]; intros s Ho.
  - exists []. simpl. now rewrite app_nil_r.
  - simpl drain. unfold ws_send. rewrite Ho.
    destruct (throws (sendCalls s)).
    + exists []. simpl. now rewrite app_nil_r.
    + match goal with |- context [drain throws rest ?s'] =>
        destruct (IH s' eq_refl) as [pre [Hq [Hs Hr]]]
      end.
      exists (message :: pre). simpl in *.
      rewrite Hs, <- app_assoc. simpl. repeat split; [congruence | exact Hr].
Qed.

Lemma processMessageQueue_returns (ws : option WebSocket) (v : Service) :
  exists ws' v',
    processMessageQueue throws ws v = Normal (ws', v') /\
    (ws = None <-> ws' = None).
Proof.
  unfold processMessageQueue.
  destruct (isProcessingQueue v || Nat.eqb (length (messageQueue v)) 0);
    [eauto |].
  destruct ws as [s |]; [| eauto].
  destruct (isOPEN (readyState s)); [| eauto].
  destruct (drain throws (messageQueue v) s) as [queue s'].
  do 2 eexists. split; [reflexivity |]. split; discriminate.
Qed.

(** [sendGamepadControl] returns: every throw of [send] is caught. *)
Lemma sendGamepadControl_returns (message : GamepadControlMessage)
    (ws : option WebSocket) (v : Service) :
  exists r, sendGamepadControl throws message ws v = Normal r.
Proof.
  unfold sendGamepadControl.
  destruct (notConnected ws) eqn:Hc; [eauto |].
  destruct ws as [s |]; [| discriminate].
  destruct (Nat.ltb 0 (length (messageQueue v)) && negb (isProcessingQueue v)).
  - destruct (processMessageQueue_returns (Some s) v) as [ws' [v' [-> Hn]]].
    destruct ws' as [s' |].
    + destruct (ws_send throws message s'); eauto.
    + exfalso. destruct Hn as [_ Hn]. specialize (Hn eq_refl). discriminate.
  - destruct (ws_send throws message s); eauto.
Qed.

(** The guard flag is down again whenever a call returns, so it is down
    between any two calls. *)
Lemma sendGamepadControl_idle (message : GamepadControlMessage)
    (ws ws' : option WebSocket) (v v' : Service) :
  isProcessingQueue v = false ->
  sendGamepadControl throws message ws v = Normal (ws', v') ->
  isProcessingQueue v' = false.
Proof.
  intros Hidle. unfold sendGamepadControl.
  destruct (notConnected ws); [intros [= _ <-]; exact Hidle |].
  assert (Hq : forall ws1 v1,
             processMessageQueue throws ws v = Normal (ws1, v1) ->
             isProcessingQueue v1 = false).
  { intros ws1 v1. unfold processMessageQueue. rewrite Hidle. simpl orb.
    destruct (Nat.eqb (length (messageQueue v)) 0); [intros [= _ <-]; exact Hidle |].
    destruct ws as [s |]; [| now intros [= _ <-]].
    destruct (isOPEN (readyState s)); [| now intros [= _ <-]].
    destruct (drain throws (messageQueue v) s). now intros [= _ <-]. }
  destruct (Nat.ltb 0 (length (messageQueue v)) && negb (isProcessingQueue v)).
  - destruct (processMessageQueue throws ws v) as [[[s1 |] v1] | r];
      try discriminate.
    specialize (Hq _ _ eq_refl).
    destruct (ws_send throws message s1); intros [= _ <-]; exact Hq.
  - destruct ws as [s |]; [| discriminate].
    destruct (ws_send throws message s); intros [= _ <-]; exact Hidle.
Qed.

End ServiceProperties.

(** C3.  With the service between two calls ([isProcessingQueue] false):
    a call of [sendGamepadControl] never raises; while the connection is not
    open it appends the message at the back of the queue; on an open
    connection where no [send] throws it first puts the whole queue on the
    wire in enqueue order and then the new message, leaving the queue empty;
    and when the [send] of a queued message throws, the messages before it
    are on the wire in order, the failed message is back at the front of the
    queue with everything behind it untouched, and the new message is then
    sent on its own (or appended to the queue when that [send] throws too). *)
Theorem sendGamepadControl_queue (throws : nat -> bool)
    (message : GamepadControlMessage) (ws : option WebSocket) (v : Service) :
  isProcessingQueue v = false ->
  (exists r, sendGamepadControl throws message ws v = Normal r)
  /\
  (notConnected ws = true ->
   sendGamepadControl throws message ws v
   = Normal (ws, {| messageQueue := messageQueue v ++ [message];
                    isProcessingQueue := false |}))
  /\
  (forall s,
     ws = Some s -> readyState s = OPEN ->
     (forall k, (k <= length (messageQueue v))%nat ->
                throws (sendCalls s + k)%nat = false) ->
     sendGamepadControl throws message ws v
     = Normal (Some (afterSends s (messageQueue v ++ [message])
                                  (length (messageQueue v) + 1)%nat),
               {| messageQueue := []; isProcessingQueue := false |}))
  /\
  (forall s pre failed post,
     ws = Some s -> readyState s = OPEN ->
     messageQueue v = pre ++ failed :: post ->
     (forall k, (k < length pre)%nat -> throws (sendCalls s + k)%nat = false) ->
     throws (sendCalls s + length pre)%nat = true ->
     processMessageQueue throws ws v
     = Normal (Some (afterSends s pre (length pre + 1)%nat),
               {| messageQueue := failed :: post; isProcessingQueue := false |})
     /\
     sendGamepadControl throws message ws v
     = Normal
         (if throws (sendCalls s + (length pre + 1))%nat
          then (Some (afterSends s pre (length pre + 2)%nat),
                {| messageQueue := (failed :: post) ++ [message];
                   isProcessingQueue := false |})
          else (Some (afterSends s (pre ++ [message]) (length pre + 2)%nat),
                {| messageQueue := failed :: post;
                   isProcessingQueue := false |}))).
Proof.
  intros Hidle. split; [apply sendGamepadControl_returns |]. split; [| split].
  - intros Hc. unfold sendGamepadControl, push. now rewrite Hc, Hidle.
  - intros s -> Ho Hok. unfold sendGamepadControl, notConnected.
    rewrite Ho, Hidle. simpl negb. cbv iota.
    destruct (messageQueue v) as [| m0 rest] eqn:Hq.
    + simpl. rewrite ws_send_ok; [| exact Ho |].
      * destruct v; simpl in *; congruence.
      * specialize (Hok 0%nat). rewrite Nat.add_0_r in Hok. apply Hok. simpl. lia.
    + simpl andb. cbv iota. unfold processMessageQueue.
      rewrite Hidle, Hq, Ho. simpl orb. cbv iota. simpl isOPEN. cbv iota.
      rewrite drain_all; [| exact Ho | intros k Hk; apply Hok; lia].
      rewrite ws_send_ok; [| exact Ho |].
      * now rewrite afterSends_afterSends.
      * unfold afterSends. simpl sendCalls. apply Hok. simpl. lia.
  - intros s pre failed post -> Ho Hq Hok Hfail.
    assert (Hpmq : processMessageQueue throws (Some s) v
                   = Normal (Some (afterSends s pre (length pre + 1)%nat),
                             {| messageQueue := failed :: post;
                                isProcessingQueue := false |})).
    { unfold processMessageQueue. rewrite Hidle, Hq, Ho.
      replace (Nat.eqb (length (pre ++ failed :: post)) 0) with false
        by (destruct pre; reflexivity).
      simpl. now rewrite drain_abort. }
    split; [exact Hpmq |].
    unfold sendGamepadControl, notConnected. rewrite Ho, Hidle. simpl negb. cbv iota.
    replace (Nat.ltb 0 (length (messageQueue v))) with true
      by (rewrite Hq; destruct pre; reflexivity).
    simpl andb. cbv iota. rewrite Hpmq.
    unfold ws_send, afterSends, push. simpl. rewrite Ho.
    replace (S (sendCalls s + (length pre + 1)))
      with (sendCalls s + (length pre + 2))%nat by lia.
    rewrite <- app_assoc.
    now destruct (throws (sendCalls s + (length pre + 1))%nat).
Qed.

(** Three queued commands; the second call of [send] throws. *)
Lemma sendGamepadControl_queue_witness :
  sendGamepadControl (Nat.eqb 1) (commandOf restingState) (Some openSocket)
    {| messageQueue := [commandOf pushedState; commandOf precisionState;
                        commandOf bothTriggers];
       isProcessingQueue := false |}
  = Normal (Some {| readyState := OPEN;
                    sent := [commandOf pushedState; commandOf restingState];
                    sendCalls := 3 |},
            {| messageQueue := [commandOf precisionState; commandOf bothTriggers];
               isProcessingQueue := false |})
  /\
  sendGamepadControl (Nat.eqb 1) (commandOf restingState) None
    {| messageQueue := [commandOf pushedState]; isProcessingQueue := false |}
  = Normal (None,
            {| messageQueue := [commandOf pushedState; commandOf restingState];
               isProcessingQueue := false |}).
Proof.
  split.
  - destruct (sendGamepadControl_queue (Nat.eqb 1) (commandOf restingState)
                (Some openSocket)
                {| messageQueue := [commandOf pushedState; commandOf precisionState;
                                    commandOf bothTriggers];
                   isProcessingQueue := false |} eq_refl)
      as [_ [_ [_ Habort]]].
    destruct (Habort openSocket [commandOf pushedState] (commandOf precisionState)
                [commandOf bothTriggers] eq_refl eq_refl eq_refl) as [_ Hsend].
    + intros k Hk. destruct k; [reflexivity | simpl in Hk; lia].
    + reflexivity.
    + exact Hsend.
  - destruct (sendGamepadControl_queue (Nat.eqb 1) (commandOf restingState) None
                {| messageQueue := [commandOf pushedState];
                   isProcessingQueue := false |} eq_refl)
      as [_ [Hqueue _]].
    apply Hqueue. reflexivity.
Defined.

(** ** The reconnecting session *)

Lemma timerInvariant_initial : timerInvariant initial.
Proof. split; [discriminate | split; [simpl; lia | now left]]. Qed.

(** Under the invariant, the guarded [clearTimeout] leaves nothing pending. *)
Lemma clearPending_nil (s : State) : timerInvariant s -> clearPending s = [].
Proof.
  intros [Hid [_ [Hnil | [id [due [Ht Hr]]]]]]; unfold clearPending.
  - rewrite Hnil. destruct (reconnectTimeout s) as [id |]; [| reflexivity].
    now destruct (Nat.eqb id 0).
  - rewrite Hr, Ht. specialize (Hid id Hr).
    destruct (Nat.eqb id 0) eqn:E; [apply Nat.eqb_eq in E; lia |].
    simpl. now rewrite Nat.eqb_refl.
Qed.

Lemma clearTimeout_single (id i : nat) (due : Z) :
  clearTimeout id [(i, due)] = [] \/ clearTimeout id [(i, due)] = [(i, due)].
Proof. simpl. destruct (Nat.eqb i id); auto. Qed.

Lemma scheduleReconnect_timers (s : State) :
  timerInvariant s ->
  timers (scheduleReconnect s) = [(nextTimeout s, (clock s + 1000)%Z)].
Proof.
  intros Hinv. unfold scheduleReconnect; simpl.
  now rewrite (clearPending_nil s Hinv).
Qed.

Lemma scheduleReconnect_invariant (s : State) :
  timerInvariant s -> timerInvariant (scheduleReconnect s).
Proof.
  intros Hinv. pose proof (scheduleReconnect_timers s Hinv) as Ht.
  destruct Hinv as [_ [Hn _]].
  split; [| split].
  - simpl. intros id [= <-]. lia.
  - simpl. lia.
  - right. exists (nextTimeout s), (clock s + 1000)%Z. now split.
Qed.

Lemma disconnect_invariant (s : State) :
  timerInvariant s -> timerInvariant (disconnect s).
Proof.
  intros Hinv. pose proof (clearPending_nil s Hinv) as Hc.
  destruct Hinv as [Hid [Hn _]].
  split; [exact Hid | split; [exact Hn |]].
  left. exact Hc.
Qed.

Lemma removeTimer_invariant (id : nat) (s : State) :
  timerInvariant s -> timerInvariant (removeTimer id s).
Proof.
  intros [Hid [Hn Ht]]. split; [exact Hid | split; [exact Hn |]].
  simpl. destruct Ht as [-> | [i [due [-> Hr]]]]; [now left |].
  destruct (clearTimeout_single id i due) as [-> | ->]; [now left |].
  right. eauto.
Qed.

Lemma step_invariant (e : Event) (s s' : State) :
  timerInvariant s -> step e s = Some s' -> timerInvariant s'.
Proof.
  intros Hinv. destruct e; simpl.
  - intros [= <-]. exact Hinv.
  - intros [= <-]. now apply disconnect_invariant.
  - destruct (socketState i s) as [[] |]; try discriminate.
    intros [= <-]. exact Hinv.
  - destruct (socketState i s) as [[] |]; try discriminate;
      intros [= <-]; exact Hinv.
  - destruct (socketState i s) as [[] |]; try discriminate;
      intros [= <-]; apply scheduleReconnect_invariant; exact Hinv.
  - destruct (isDue id (clock s) (timers s)); [| discriminate].
    intros [= <-]. apply (removeTimer_invariant id s Hinv).
  - destruct (Z.leb 0 ms); [| discriminate].
    intros [= <-]. exact Hinv.
Qed.

Lemma run_invariant (events : list Event) :
  forall s s', timerInvariant s -> run events s = Some s' -> timerInvariant s'.
Proof.
  induction events as [| e rest IH]; intros s s' Hinv; simpl.
  - intros [= <-]. exact Hinv.
  - destruct (step e s) as [s1 |] eqn:E; [| discriminate].
    apply IH. exact (step_invariant e s s1 Hinv E).
Qed.

Lemma reachable_invariant (s : State) : reachable s -> timerInvariant s.
Proof.
  intros [events Hrun].
  exact (run_invariant events initial s timerInvariant_initial Hrun).
Qed.

(** The close handler's effect on the state. *)
Lemma step_SocketClose (i : nat) (s s' : State) :
  step (SocketClose i) s = Some s' ->
  s' = onclose (setSocket i CLOSED s).
Proof.
  simpl. destruct (socketState i s) as [[] |]; try discriminate;
    now intros [= <-].
Qed.

Lemma onclose_timers (i : nat) (s : State) :
  timerInvariant s ->
  timers (onclose (setSocket i CLOSED s)) = [(nextTimeout s, (clock s + 1000)%Z)].
Proof.
  intros Hinv. unfold onclose.
  rewrite scheduleReconnect_timers; [reflexivity | exact Hinv].
Qed.

Lemma timeout_not_due (s : State) (id : nat) (due ms : Z) :
  timers s = [(id, due)] -> (0 <= ms)%Z -> (clock s + ms < due)%Z ->
  run [Elapse ms; TimeoutFires id] s = None.
Proof.
  intros Ht Hms Hdue. simpl.
  replace (Z.leb 0 ms) with true by (symmetry; apply Z.leb_le; lia).
  unfold advance at 1 2. cbn [clock timers].
  rewrite Ht. simpl isDue. rewrite Nat.eqb_refl.
  replace (Z.leb due (clock s + ms)) with false
    by (symmetry; apply Z.leb_gt; lia).
  reflexivity.
Qed.

Lemma timeout_due (s : State) (id : nat) (due ms : Z) :
  timers s = [(id, due)] -> (0 <= ms)%Z -> (due <= clock s + ms)%Z ->
  run [Elapse ms; TimeoutFires id] s
  = Some (reconnectCallback (removeTimer id (advance ms s))).
Proof.
  intros Ht Hms Hdue. simpl.
  replace (Z.leb 0 ms) with true by (symmetry; apply Z.leb_le; lia).
  unfold advance at 1 2. cbn [clock timers].
  rewrite Ht. simpl isDue. rewrite Nat.eqb_refl.
  replace (Z.leb due (clock s + ms)) with true
    by (symmetry; apply Z.leb_le; lia).
  reflexivity.
Qed.

(** C6.  In every state a session can reach, at most one timeout is
    pending.  A close event on any of its sockets leaves exactly one, due
    1000 ms later and named by [reconnectTimeout]; a timeout that was pending
    before is cancelled, not kept beside it; the new one cannot run before
    the 1000 ms have passed, and when it runs it is one reconnect attempt:
    one new connecting socket, and nothing pending. *)
Theorem close_schedules_one_reconnect (s : State) :
  reachable s ->
  (length (timers s) <= 1)%nat /\
  forall i s',
    step (SocketClose i) s = Some s' ->
    let id := nextTimeout s in
    timers s' = [(id, (clock s + 1000)%Z)] /\
    reconnectTimeout s' = Some id /\
    (forall old due, In (old, due) (timers s) -> ~ In old (map fst (timers s'))) /\
    (forall ms, (0 <= ms < 1000)%Z ->
       run [Elapse ms; TimeoutFires id] s' = None) /\
    (forall ms, (1000 <= ms)%Z ->
       exists s'',
         run [Elapse ms; TimeoutFires id] s' = Some s'' /\
         timers s'' = [] /\
         sockets s'' = sockets s' ++ [freshSocket] /\
         ws s'' = Some (length (sockets s'))).
Proof.
  intros Hreach. pose proof (reachable_invariant s Hreach) as Hinv.
  split.
  { destruct Hinv as [_ [_ [-> | [id [due [-> _]]]]]]; simpl; lia. }
  intros i s' Hstep id. subst id.
  apply step_SocketClose in Hstep. subst s'.
  pose proof (onclose_timers i s Hinv) as Ht.
  split; [exact Ht |]. split; [reflexivity |]. split; [| split].
  - intros old due Hold. rewrite Ht. simpl. intros [Heq | []].
    destruct Hinv as [Hid [_ [Hnil | [id [due' [Hts Hr]]]]]].
    + rewrite Hnil in Hold. destruct Hold.
    + rewrite Hts in Hold. destruct Hold as [[= Hsame _] | []].
      specialize (Hid id Hr). simpl in Heq. lia.
  - intros ms Hms.
    apply (timeout_not_due _ _ _ _ Ht); [lia |].
    change (clock (onclose (setSocket i CLOSED s))) with (clock s). lia.
  - intros ms Hms. eexists. split.
    + apply (timeout_due _ _ _ _ Ht); [lia |].
      change (clock (onclose (setSocket i CLOSED s))) with (clock s). lia.
    + cbn [reconnectCallback connect removeTimer advance log
           timers sockets ws].
      rewrite Ht. simpl clearTimeout. rewrite Nat.eqb_refl. auto.
Qed.

Lemma afterFirstClose_reachable : reachable afterFirstClose.
Proof. exists [CallConnect; SocketClose 0; CallConnect]. reflexivity. Defined.

(** The second socket closes while timeout 1 is pending: timeout 2 replaces
    it. *)
Lemma close_schedules_one_reconnect_witness :
  (length (timers afterFirstClose) <= 1)%nat /\
  timers (onclose (setSocket 1 CLOSED afterFirstClose)) = [(2%nat, 1000%Z)] /\
  run [Elapse 400; TimeoutFires 2] (onclose (setSocket 1 CLOSED afterFirstClose))
  = None.
Proof.
  destruct (close_schedules_one_reconnect afterFirstClose afterFirstClose_reachable)
    as [Hone Hclose].
  split; [exact Hone |].
  destruct (Hclose 1%nat (onclose (setSocket 1 CLOSED afterFirstClose)) eq_refl)
    as [Htimers [_ [_ [Hearly _]]]].
  split; [exact Htimers |].
  apply Hearly. lia.
Defined.

(** C5 fails on the code.  [disconnect()] leaves the socket's [onclose]
    handler attached, so the close event that [ws.close()] itself causes
    runs [scheduleReconnect]: after the teardown a timeout is pending, and
    one second later it runs and [connect] opens a new socket. *)
Theorem teardown_then_reconnect :
  run [CallConnect; SocketOpen 0; CallDisconnect] initial = Some afterTeardown /\
  (exists s, run [SocketClose 0] afterTeardown = Some s /\
             timers s = [(1%nat, 1000%Z)] /\
             console s = ["WebSocket connected"; "WebSocket disconnected"]%string) /\
  (exists s, run [SocketClose 0; Elapse 1000; TimeoutFires 1] afterTeardown = Some s /\
             sockets s = [withReadyState CLOSED freshSocket; freshSocket] /\
             ws s = Some 1%nat /\
             console s = ["WebSocket connected"; "WebSocket disconnected";
                          "Attempting to reconnect..."]%string).
Proof.
  split; [reflexivity |].
  split; eexists; (split; [reflexivity |]); repeat split.
Qed.

(** ** The service on top of the session *)

(** The two fit together as in the running application: a command issued
    while the replacement socket is still connecting is queued; once that
    socket has opened, the next command is preceded on the wire by the
    queued one. *)
Example queue_across_reconnect :
  exists down up,
    run [CallConnect; SocketClose 0; Elapse 1000; TimeoutFires 1] initial = Some down /\
    sendGamepadControl (fun _ => false) (commandOf pushedState)
      (getWebSocketConnection (Some down)) initialService
    = Normal (Some freshSocket,
              {| messageQueue := [commandOf pushedState];
                 isProcessingQueue := false |}) /\
    step (SocketOpen 1) down = Some up /\
    sendGamepadControl (fun _ => false) (commandOf restingState)
      (getWebSocketConnection (Some up))
      {| messageQueue := [commandOf pushedState]; isProcessingQueue := false |}
    = Normal (Some {| readyState := OPEN;
                      sent := [commandOf pushedState; commandOf restingState];
                      sendCalls := 2 |},
              initialService).
Proof.
  do 2 eexists. repeat split.
Qed.

(** * Further properties *)

(** ** The conditioner as a function of the raw value *)

Lemma sign_opp (v : Q) : sign (- v) == - sign v.
Proof.
  unfold sign.
  destruct (Qgtb (- v) 0) eqn:A; destruct (Qltb (- v) 0) eqn:B;
    destruct (Qgtb v 0) eqn:C; destruct (Qltb v 0) eqn:D;
    rewrite ?Qgtb_gt, ?Qgtb_le, ?Qltb_lt, ?Qltb_ge in *;
    try lra; reflexivity.
Qed.

(** At or above the deadzone the conditioner is the affine map
    [(v - deadzone) / (1 - deadzone)]; at or below its negative,
    [(v + deadzone) / (1 - deadzone)]. *)
Lemma applyDeadzone_above (v deadzone : Q) :
  0 <= deadzone -> deadzone <= v ->
  applyDeadzone v deadzone == (v - deadzone) / (1 - deadzone).
Proof.
  intros Hd Hv.
  assert (Ha : Qabs v == v) by (apply Qabs_pos; lra).
  rewrite applyDeadzone_active by (rewrite ?Ha; lra).
  rewrite Ha. unfold sign.
  destruct (Qgtb v 0) eqn:P; [ring |].
  apply Qgtb_le in P.
  assert (Hv0 : v == 0) by lra. assert (Hd0 : deadzone == 0) by lra.
  destruct (Qltb v 0); rewrite Hv0, Hd0; reflexivity.
Qed.

Lemma applyDeadzone_below (v deadzone : Q) :
  0 <= deadzone -> v <= - deadzone ->
  applyDeadzone v deadzone == (v + deadzone) / (1 - deadzone).
Proof.
  intros Hd Hv.
  assert (Ha : Qabs v == - v) by (apply Qabs_neg; lra).
  rewrite applyDeadzone_active by (rewrite ?Ha; lra).
  rewrite Ha. unfold sign.
  destruct (Qgtb v 0) eqn:P; [apply Qgtb_gt in P; lra |].
  destruct (Qltb v 0) eqn:N.
  - unfold Qdiv. ring.
  - apply Qltb_ge in N.
    assert (Hv0 : v == 0) by lra. assert (Hd0 : deadzone == 0) by lra.
    rewrite Hv0, Hd0. reflexivity.
Qed.

(** X1.  The conditioner is odd: for a deadzone in [0,1), mirroring the raw
    value mirrors the conditioned one. *)
Theorem applyDeadzone_odd (v deadzone : Q) :
  0 <= deadzone -> deadzone < 1 ->
  applyDeadzone (- v) deadzone == - applyDeadzone v deadzone.
Proof.
  intros Hd _.
  destruct (Qlt_le_dec (Qabs v) deadzone) as [Hin | Hout].
  - rewrite (applyDeadzone_rest v deadzone Hin).
    rewrite (applyDeadzone_rest (- v) deadzone); [reflexivity |].
    now rewrite Qabs_opp.
  - rewrite (applyDeadzone_active v deadzone Hd Hout).
    rewrite (applyDeadzone_active (- v) deadzone Hd)
      by now rewrite Qabs_opp.
    rewrite sign_opp, Qabs_opp. ring.
Qed.

Lemma applyDeadzone_odd_witness :
  applyDeadzone (- 0.5) 0.1 == - applyDeadzone 0.5 0.1.
Proof. apply (applyDeadzone_odd 0.5 0.1); lra. Defined.

(** X2.  For a deadzone in [0,1) the conditioner never decreases when the
    raw value increases: pushing a stick further never lowers its output. *)
Theorem applyDeadzone_monotone (v w deadzone : Q) :
  0 <= deadzone -> deadzone < 1 -> v <= w ->
  applyDeadzone v deadzone <= applyDeadzone w deadzone.
Proof.
  intros Hd H1 Hvw.
  assert (Hk : 0 < / (1 - deadzone)) by (apply Qinv_lt_0_compat; lra).
  assert (Hcases : forall u,
             (u <= - deadzone /\ applyDeadzone u deadzone == (u + deadzone) / (1 - deadzone))
             \/ (- deadzone < u /\ u < deadzone /\ applyDeadzone u deadzone == 0)
             \/ (deadzone <= u /\ applyDeadzone u deadzone == (u - deadzone) / (1 - deadzone))).
  { intros u.
    destruct (Qlt_le_dec (- deadzone) u) as [Hl | Hl].
    - destruct (Qlt_le_dec u deadzone) as [Hr | Hr].
      + right; left. repeat split; try assumption.
        rewrite applyDeadzone_rest; [reflexivity |].
        apply Qabs_case; intros; lra.
      + right; right. split; [assumption |]. now apply applyDeadzone_above.
    - left. split; [assumption |]. now apply applyDeadzone_below. }
  destruct (Hcases v) as [[Hv ->] | [[Hv1 [Hv2 ->]] | [Hv ->]]];
    destruct (Hcases w) as [[Hw ->] | [[Hw1 [Hw2 ->]] | [Hw ->]]];
    unfold Qdiv; nra.
Qed.

Lemma applyDeadzone_monotone_witness :
  applyDeadzone (- 0.3) 0.1 <= applyDeadzone 0.7 0.1.
Proof. apply (applyDeadzone_monotone (- 0.3) 0.7 0.1); lra. Defined.

(** X3.  Full deflection gives full scale: for a deadzone in [0,1) the raw
    values 1 and -1 are conditioned to [gain] and [- gain]. *)
Theorem condition_full_deflection (deadzone gain : Q) :
  0 <= deadzone -> deadzone < 1 ->
  condition 1 deadzone gain == gain /\ condition (- (1)) deadzone gain == - gain.
Proof.
  intros Hd H1. unfold condition. split.
  - rewrite applyDeadzone_above by lra. field. lra.
  - rewrite applyDeadzone_below by lra. field. lra.
Qed.

Lemma condition_full_deflection_witness :
  condition 1 0.1 0.8 == 0.8 /\ condition (- (1)) 0.1 0.8 == - 0.8.
Proof. apply (condition_full_deflection 0.1 0.8); lra. Defined.

(** ** The poller's button table and binding *)

Lemma GAMEPAD_BUTTON_MAPPING_beyond (index : nat) :
  (17 <= index)%nat -> GAMEPAD_BUTTON_MAPPING index = None.
Proof.
  intros H. do 17 (destruct index as [| index]; [lia |]). reflexivity.
Qed.

Lemma forEachButton_beyond (config : GamepadConfig)
    (l : list Navigator.GamepadButton) :
  forall index bs, (17 <= index)%nat -> forEachButton config l index bs = bs.
Proof.
  induction l as [| button rest IH]; intros index bs H; [reflexivity |].
  simpl. unfold assignButton.
  rewrite (GAMEPAD_BUTTON_MAPPING_beyond index H). apply IH. lia.
Qed.

(** X4.  Each button field of a snapshot is read from the raw button at its
    index of the table and from nothing else: a field whose raw button is
    missing keeps its released value ([false], or 0 for a trigger), the two
    triggers hold [value * sensitivity.triggers] and not [pressed], and raw
    buttons past index 16 are ignored. *)
Theorem readGamepad_buttons (config : GamepadConfig) (g : Navigator.Gamepad) :
  let p k := from_option Navigator.pressed false (Navigator.buttons g !! k) in
  let v k := from_option
               (fun b => Navigator.value b * s_triggers (sensitivity config)) 0
               (Navigator.buttons g !! k) in
  buttons (readGamepad config g)
  = Buttons.mk (p 0%nat) (p 1%nat) (p 2%nat) (p 3%nat) (p 4%nat) (p 5%nat)
      (v 6%nat) (v 7%nat)
      (p 8%nat) (p 9%nat) (p 10%nat) (p 11%nat)
      (p 12%nat) (p 13%nat) (p 14%nat) (p 15%nat) (p 16%nat).
Proof.
  intros p v. subst p v. unfold readGamepad. cbn [buttons].
  destruct (Navigator.buttons g) as [| b0 l]; [reflexivity |].
  do 16 (destruct l as [| ? l]; [reflexivity |]).
  cbn [forEachButton]. rewrite forEachButton_beyond by lia. reflexivity.
Qed.

(** X5.  Inverting the y axes changes only the sign of the two y
    components: the x components and the buttons are the same, whatever the
    device reports. *)
Theorem readGamepad_invertY (dz : Q) (sens : Sensitivity) (g : Navigator.Gamepad) :
  let plain := readGamepad (mkGamepadConfig dz sens false) g in
  let inverted := readGamepad (mkGamepadConfig dz sens true) g in
  Vec2.x (leftStick inverted) = Vec2.x (leftStick plain) /\
  Vec2.x (rightStick inverted) = Vec2.x (rightStick plain) /\
  Vec2.y (leftStick inverted) == - Vec2.y (leftStick plain) /\
  Vec2.y (rightStick inverted) == - Vec2.y (rightStick plain) /\
  buttons inverted = buttons plain.
Proof.
  intros plain inverted. subst plain inverted.
  split; [reflexivity |]. split; [reflexivity |].
  split; [| split].
  - unfold readGamepad, invertSign.
    cbn [leftStick Vec2.y invertY deadzone sensitivity]. ring.
  - unfold readGamepad, invertSign.
    cbn [rightStick Vec2.y invertY deadzone sensitivity]. ring.
  - rewrite !readGamepad_buttons. reflexivity.
Qed.

Lemma firstLive_first (gamepads : list (option Navigator.Gamepad)) :
  forall k i g,
    gamepads !! i = Some (Some g) ->
    (forall j, (j < i)%nat -> gamepads !! j = Some None) ->
    firstLive gamepads k = Some (k + i)%nat.
Proof.
  induction gamepads as [| slot rest IH]; intros k i g Hi Hbefore.
  - destruct i; discriminate.
  - destruct i as [| i].
    + simpl in Hi. injection Hi as ->. simpl. now rewrite Nat.add_0_r.
    + specialize (Hbefore 0%nat ltac:(lia)) as H0. simpl in H0.
      injection H0 as ->. simpl.
      rewrite (IH (S k) i g Hi).
      * f_equal. lia.
      * intros j Hj. apply (Hbefore (S j)). lia.
Qed.

Lemma firstLive_none (gamepads : list (option Navigator.Gamepad)) :
  forall k,
    (forall j g, gamepads !! j <> Some (Some g)) ->
    firstLive gamepads k = None.
Proof.
  induction gamepads as [| slot rest IH]; intros k Hnone; [reflexivity |].
  destruct slot as [g |].
  - exfalso. apply (Hnone 0%nat g). reflexivity.
  - simpl. apply IH. intros j g. apply (Hnone (S j) g).
Qed.

(** X6.  An unbound poller binds the first live slot of the array, whatever
    comes after it, and reads that device; with no live slot it stays
    unbound and keeps the snapshot it had. *)
Theorem pollGamepad_binds_first (config : GamepadConfig)
    (gamepads : list (option Navigator.Gamepad)) (h : Hook) :
  gamepadIndex h = None ->
  (forall i g,
     gamepads !! i = Some (Some g) ->
     (forall j, (j < i)%nat -> gamepads !! j = Some None) ->
     pollGamepad config gamepads h
     = {| gamepadState := readGamepad config g; gamepadIndex := Some i |})
  /\
  ((forall j g, gamepads !! j <> Some (Some g)) ->
   pollGamepad config gamepads h
   = {| gamepadState := gamepadState h; gamepadIndex := None |}).
Proof.
  intros Hunbound. split.
  - intros i g Hi Hbefore. unfold pollGamepad. rewrite Hunbound.
    rewrite (firstLive_first gamepads 0 i g Hi Hbefore). simpl. now rewrite Hi.
  - intros Hnone. unfold pollGamepad. rewrite Hunbound.
    now rewrite (firstLive_none gamepads 0 Hnone).
Qed.

Lemma pollGamepad_binds_first_witness :
  pollGamepad DEFAULT_GAMEPAD_CONFIG [None; Some restingPad; Some overshootPad]
    initialHook
  = {| gamepadState := readGamepad DEFAULT_GAMEPAD_CONFIG restingPad;
       gamepadIndex := Some 1%nat |}.
Proof.
  destruct (pollGamepad_binds_first DEFAULT_GAMEPAD_CONFIG
              [None; Some restingPad; Some overshootPad] initialHook eq_refl)
    as [Hbind _].
  apply Hbind; [reflexivity |].
  intros j Hj. destruct j; [reflexivity | lia].
Defined.

Lemma pollGamepad_lost_unbinds (config : GamepadConfig)
    (gamepads : list (option Navigator.Gamepad)) (h : Hook) (i : nat) :
  gamepadIndex h = Some i ->
  gamepads !! i = None \/ gamepads !! i = Some None ->
  gamepadIndex (pollGamepad config gamepads h) = None.
Proof.
  intros Hbound Hlost. unfold pollGamepad. rewrite Hbound.
  destruct Hlost as [-> | ->]; reflexivity.
Qed.

(** X7.  A bound poller stays with its device while the slot is live, even
    when a lower slot holds another device; and once a poll has found the
    slot dead, the next poll binds the first live slot of the array it is
    given, which can be a different index. *)
Theorem pollGamepad_rebinds (config : GamepadConfig)
    (gamepads gamepads' : list (option Navigator.Gamepad)) (h : Hook)
    (i j : nat) (g' : Navigator.Gamepad) :
  gamepadIndex h = Some i ->
  (forall g, gamepads !! i = Some (Some g) ->
     pollGamepad config gamepads h
     = {| gamepadState := readGamepad config g; gamepadIndex := Some i |})
  /\
  (gamepads !! i = None \/ gamepads !! i = Some None ->
   gamepads' !! j = Some (Some g') ->
   (forall k, (k < j)%nat -> gamepads' !! k = Some None) ->
   pollGamepad config gamepads' (pollGamepad config gamepads h)
   = {| gamepadState := readGamepad config g'; gamepadIndex := Some j |}).
Proof.
  intros Hbound. split.
  - intros g Hg. unfold pollGamepad. now rewrite Hbound, Hg.
  - intros Hlost Hj Hbefore.
    pose proof (pollGamepad_lost_unbinds config gamepads h i Hbound Hlost) as Hu.
    unfold pollGamepad at 1. rewrite Hu.
    rewrite (firstLive_first gamepads' 0 j g' Hj Hbefore). simpl. now rewrite Hj.
Qed.

Lemma pollGamepad_rebinds_witness :
  pollGamepad DEFAULT_GAMEPAD_CONFIG [Some restingPad; Some overshootPad] boundAtOne
  = {| gamepadState := readGamepad DEFAULT_GAMEPAD_CONFIG overshootPad;
       gamepadIndex := Some 1%nat |}
  /\
  pollGamepad DEFAULT_GAMEPAD_CONFIG [Some restingPad]
    (pollGamepad DEFAULT_GAMEPAD_CONFIG [Some restingPad; None] boundAtOne)
  = {| gamepadState := readGamepad DEFAULT_GAMEPAD_CONFIG restingPad;
       gamepadIndex := Some 0%nat |}.
Proof.
  split.
  - destruct (pollGamepad_rebinds DEFAULT_GAMEPAD_CONFIG
                [Some restingPad; Some overshootPad] [] boundAtOne 1 0 restingPad
                eq_refl) as [Hstay _].
    apply Hstay. reflexivity.
  - destruct (pollGamepad_rebinds DEFAULT_GAMEPAD_CONFIG
                [Some restingPad; None] [Some restingPad] boundAtOne 1 0 restingPad
                eq_refl) as [_ Hrebind].
    apply Hrebind; [right; reflexivity | reflexivity |].
    intros k Hk. lia.
Defined.

Lemma hookStep_flag (config : GamepadConfig) (e : HookEvent) (h : Hook) :
  flagMatchesBinding h -> flagMatchesBinding (hookStep config e h).
Proof.
  unfold flagMatchesBinding. intros H. destruct e as [gamepads | index | index]; simpl.
  - unfold pollGamepad.
    destruct (gamepadIndex h) as [i |] eqn:Hi.
    + destruct (gamepads !! i) as [[g |] |]; reflexivity.
    + destruct (firstLive gamepads 0) as [i |]; [| exact H].
      destruct (gamepads !! i) as [[g |] |]; reflexivity.
  - reflexivity.
  - unfold handleGamepadDisconnected.
    destruct (gamepadIndex h) as [i |] eqn:Hi.
    + destruct (Nat.eqb i index); [reflexivity |]. now rewrite Hi.
    + now rewrite Hi.
Qed.

(** X8.  From the mount on, through any sequence of polls and of connect
    and disconnect events, the [connected] flag of the snapshot is true
    exactly when a device index is bound. *)
Theorem hook_flag_matches_binding (config : GamepadConfig)
    (present : list (option Navigator.Gamepad)) (events : list HookEvent) :
  let h := hookRun config events (mount present) in
  connected (gamepadState h)
  = match gamepadIndex h with Some _ => true | None => false end.
Proof.
  intros h. subst h. unfold hookRun.
  assert (Hmount : flagMatchesBinding (mount present)).
  { unfold mount, checkInitialGamepads, flagMatchesBinding.
    destruct (firstLive present 0); reflexivity. }
  revert Hmount. generalize (mount present).
  induction events as [| e rest IH]; intros h0 H0; [exact H0 |].
  simpl. apply IH. now apply hookStep_flag.
Qed.

(** ** The throttler over time *)

Lemma interval_elapsed (d : Z) :
  Qltb (inject_Z d) CONTROL_UPDATE_INTERVAL = false <-> (17 <= d)%Z.
Proof.
  rewrite Qltb_ge. unfold Qle, CONTROL_UPDATE_INTERVAL, inject_Z. simpl. lia.
Qed.

Lemma effect_sent_elapsed (gamepadState : GamepadState) (now : Z) (r r' : Refs)
    (m : GamepadControlMessage) :
  effect gamepadState now r = (Some m, r') ->
  (17 <= now - lastUpdateTime r)%Z /\ connected gamepadState = true.
Proof.
  unfold effect.
  destruct (connected gamepadState); [| discriminate]. simpl negb. cbv iota.
  destruct (Qltb _ CONTROL_UPDATE_INTERVAL) eqn:E; [discriminate |].
  intros _. split; [now apply interval_elapsed | reflexivity].
Qed.

Lemma effect_suppressed_refs (gamepadState : GamepadState) (now : Z) (r r' : Refs) :
  effect gamepadState now r = (None, r') -> r' = r.
Proof.
  unfold effect.
  destruct (negb (connected gamepadState)); [now intros [= <-] |].
  destruct (Qltb _ CONTROL_UPDATE_INTERVAL); [now intros [= <-] |].
  destruct (match previousState r with Some _ => _ | None => false end);
    [now intros [= <-] | discriminate].
Qed.

Lemma last_nonempty_default (l : list Z) :
  forall a d d', List.last (a :: l) d = List.last (a :: l) d'.
Proof.
  induction l as [| b l IH]; intros a d d'; [reflexivity |].
  change (List.last (b :: l) d = List.last (b :: l) d'). apply IH.
Qed.

(** X9.  Over any sequence of ticks, whatever the snapshots and the clock
    readings, two consecutive sent commands are at least 17 ms apart (the
    first at least 17 ms after the initial [lastUpdateTime]), and at the end
    [lastUpdateTime] is the time of the last command sent, or unchanged when
    none was. *)
Theorem runTicks_spaced (ticks : list (GamepadState * Z)) (r : Refs) :
  spaced (lastUpdateTime r) (fst (runTicks ticks r)) /\
  lastUpdateTime (snd (runTicks ticks r))
  = List.last (map fst (fst (runTicks ticks r))) (lastUpdateTime r).
Proof.
  revert r. induction ticks as [| [g now] rest IH]; intros r.
  - simpl. auto.
  - simpl runTicks.
    destruct (effect g now r) as [[m |] r1] eqn:E.
    + destruct (effect_sent_elapsed _ _ _ _ _ E) as [Hel _].
      apply effect_sent in E. destruct E as [_ ->].
      specialize (IH {| lastUpdateTime := now; previousState := Some g |}).
      destruct (runTicks rest _) as [sends r2]. simpl in *.
      destruct IH as [Hs Hl]. split; [split; assumption |].
      rewrite Hl. destruct (map fst sends) as [| t ts]; [reflexivity |].
      change (List.last (t :: ts) now = List.last (t :: ts) (lastUpdateTime r)).
      apply last_nonempty_default.
    + apply effect_suppressed_refs in E. subst r1.
      specialize (IH r). destruct (runTicks rest r) as [sends r2].
      exact IH.
Qed.

(** The tick goes past the two early returns. *)
Lemma effect_eligible (gamepadState : GamepadState) (now : Z) (r : Refs) :
  connected gamepadState = true -> (17 <= now - lastUpdateTime r)%Z ->
  effect gamepadState now r
  = if match previousState r with
       | Some previous =>
           negb (hasMovement gamepadState) && negb (hasGripperInput gamepadState)
           && negb (buttonChanged gamepadState previous)
       | None => false
       end
    then (None, r)
    else (Some (handleGripper gamepadState (controlMessage gamepadState)),
          {| lastUpdateTime := now; previousState := Some gamepadState |}).
Proof.
  intros Hc Hel. unfold effect. rewrite Hc. simpl negb. cbv iota.
  apply interval_elapsed in Hel. now rewrite Hel.
Qed.

Lemma differs_iff (p q : bool) : differs p q = true <-> p <> q.
Proof.
  destruct p, q; simpl; split; intros H;
    solve [reflexivity | discriminate | now elim H].
Qed.

(** X10.  With sticks and triggers at rest (no movement, no gripper input)
    on an eligible tick, a command is sent exactly when one of the buttons
    [a], [x], [y], [rb] differs from the previously sent snapshot; a change
    of any other button ([b], [lb], the d-pad, ...) alone sends nothing,
    though [lb] and the d-pad are part of the command. *)
Theorem effect_at_rest (gamepadState previous : GamepadState) (now : Z) (r : Refs) :
  connected gamepadState = true ->
  (17 <= now - lastUpdateTime r)%Z ->
  hasMovement gamepadState = false ->
  hasGripperInput gamepadState = false ->
  previousState r = Some previous ->
  let changed :=
    Buttons.a (buttons gamepadState) <> Buttons.a (buttons previous) \/
    Buttons.x (buttons gamepadState) <> Buttons.x (buttons previous) \/
    Buttons.y (buttons gamepadState) <> Buttons.y (buttons previous) \/
    Buttons.rb (buttons gamepadState) <> Buttons.rb (buttons previous) in
  (changed ->
   effect gamepadState now r
   = (Some (handleGripper gamepadState (controlMessage gamepadState)),
      {| lastUpdateTime := now; previousState := Some gamepadState |}))
  /\
  (~ changed -> effect gamepadState now r = (None, r)).
Proof.
  intros Hc Hel Hm Hg Hp changed. subst changed.
  rewrite (effect_eligible _ _ _ Hc Hel), Hp, Hm, Hg. simpl negb. simpl andb.
  unfold buttonChanged. split.
  - intros Hch.
    replace (_ || _ || _ || _) with true; [reflexivity |].
    symmetry. rewrite !orb_true_iff, !differs_iff. tauto.
  - intros Hsame.
    replace (_ || _ || _ || _) with false; [reflexivity |].
    symmetry. apply not_true_is_false.
    rewrite !orb_true_iff, !differs_iff. tauto.
Qed.

(** Pressing [lb] and a d-pad direction at rest sends nothing. *)
Lemma effect_at_rest_witness :
  effect restingWithLb 5000 sentResting = (None, sentResting).
Proof.
  destruct (effect_at_rest restingWithLb
              {| connected := true; leftStick := Vec2.mk 0 0;
                 rightStick := Vec2.mk 0 0; buttons := Buttons.released |}
              5000 sentResting eq_refl ltac:(simpl; lia) eq_refl eq_refl eq_refl)
    as [_ Hquiet].
  apply Hquiet. intros [H | [H | [H | H]]]; apply H; reflexivity.
Defined.

(** X11.  Before anything was sent ([previousState] is null) every eligible
    tick sends, also for a snapshot entirely at rest. *)
Theorem effect_first_tick (gamepadState : GamepadState) (now : Z) (r : Refs) :
  previousState r = None ->
  connected gamepadState = true ->
  (17 <= now - lastUpdateTime r)%Z ->
  effect gamepadState now r
  = (Some (handleGripper gamepadState (controlMessage gamepadState)),
     {| lastUpdateTime := now; previousState := Some gamepadState |}).
Proof.
  intros Hp Hc Hel. now rewrite (effect_eligible _ _ _ Hc Hel), Hp.
Qed.

Lemma effect_first_tick_witness :
  exists m, effect restingWithLb 1000 initialRefs
            = (Some m, {| lastUpdateTime := 1000%Z;
                          previousState := Some restingWithLb |})
            /\ gripper m = Some stay.
Proof.
  eexists. split.
  - apply (effect_first_tick restingWithLb 1000 initialRefs);
      [reflexivity | reflexivity | simpl; lia].
  - reflexivity.
Defined.

(** X12.  A trigger beyond 0.5 is never held back by the rest rule: on an
    eligible tick the command is sent, with the gripper [open] for the right
    trigger and [close] for the left one alone. *)
Theorem effect_gripper_sends (gamepadState : GamepadState) (now : Z) (r : Refs) :
  connected gamepadState = true ->
  (17 <= now - lastUpdateTime r)%Z ->
  0.5 < Buttons.rt (buttons gamepadState) \/ 0.5 < Buttons.lt (buttons gamepadState) ->
  exists m,
    effect gamepadState now r
    = (Some m, {| lastUpdateTime := now; previousState := Some gamepadState |}) /\
    (0.5 < Buttons.rt (buttons gamepadState) -> gripper m = Some open) /\
    (Buttons.rt (buttons gamepadState) <= 0.5 -> gripper m = Some close).
Proof.
  intros Hc Hel Htrig.
  assert (Hg : hasGripperInput gamepadState = true).
  { unfold hasGripperInput. rewrite orb_true_iff, !Qgtb_gt.
    destruct Htrig; [right | left]; lra. }
  rewrite (effect_eligible _ _ _ Hc Hel), Hg. simpl negb.
  rewrite andb_false_r. simpl andb.
  replace (match previousState r with Some _ => false | None => false end)
    with false by (destruct (previousState r); reflexivity).
  eexists. split; [reflexivity |].
  unfold handleGripper.
  destruct (Qgtb (Buttons.rt (buttons gamepadState)) 0.5) eqn:Hrt.
  - apply Qgtb_gt in Hrt. split; [reflexivity | intros; lra].
  - apply Qgtb_le in Hrt. destruct Htrig as [H | H]; [lra |].
    apply Qgtb_gt in H. rewrite H. split; [intros; lra | reflexivity].
Qed.

Lemma effect_gripper_sends_witness :
  exists m,
    effect bothTriggers 5000 sentResting
    = (Some m, {| lastUpdateTime := 5000%Z; previousState := Some bothTriggers |}) /\
    gripper m = Some open.
Proof.
  destruct (effect_gripper_sends bothTriggers 5000 sentResting eq_refl
              ltac:(simpl; lia) (or_introl eq_refl))
    as [m [Hsent [Hopen _]]].
  exists m. split; [exact Hsent |]. apply Hopen. reflexivity.
Defined.

Lemma product_bound (v k bound : Q) :
  Qabs v <= 1 -> 0 <= k <= bound -> Qabs (v * k) <= bound.
Proof.
  intros Hv Hk. pose proof (Qabs_nonneg v) as Hn.
  rewrite Qabs_Qmult, (Qabs_pos k) by lra. nra.
Qed.

(** X13.  When the snapshot's stick components are within [-1,1], every
    delta of the command sent for it has magnitude at most 0.15, and at most
    0.03 in precision mode ([rb] held). *)
Theorem sent_deltas_bounded (gamepadState : GamepadState) (now : Z) (r r' : Refs)
    (m : GamepadControlMessage) :
  -1 <= Vec2.x (leftStick gamepadState) <= 1 ->
  -1 <= Vec2.y (leftStick gamepadState) <= 1 ->
  -1 <= Vec2.x (rightStick gamepadState) <= 1 ->
  -1 <= Vec2.y (rightStick gamepadState) <= 1 ->
  effect gamepadState now r = (Some m, r') ->
  let bound : Q := if Buttons.rb (buttons gamepadState) then 0.03 else 0.15 in
  Qabs (Deltas.x (deltas m)) <= bound /\ Qabs (Deltas.y (deltas m)) <= bound /\
  Qabs (Deltas.z (deltas m)) <= bound /\ Qabs (Deltas.wrist (deltas m)) <= bound.
Proof.
  intros Hlx Hly Hrx Hry Hsent bound. subst bound.
  apply effect_sent in Hsent. destruct Hsent as [-> _].
  rewrite handleGripper_deltas. unfold controlMessage, speedMultiplier.
  cbn [deltas Deltas.x Deltas.y Deltas.z Deltas.wrist].
  apply Qabs_unit in Hlx, Hly, Hrx, Hry.
  destruct (Buttons.rb (buttons gamepadState));
    (split; [| split; [| split]]);
    apply product_bound; rewrite ?Qabs_opp; try assumption; lra.
Qed.

Lemma sent_deltas_bounded_witness :
  Qabs (Deltas.y (deltas (commandOf precisionState))) <= 0.03.
Proof.
  destruct (sent_deltas_bounded precisionState 1000 initialRefs
              {| lastUpdateTime := 1000%Z; previousState := Some precisionState |}
              (commandOf precisionState)) as [_ [Hy _]].
  - simpl; lra.
  - simpl; lra.
  - simpl; lra.
  - simpl; lra.
  - reflexivity.
  - exact Hy.
Defined.

(** ** The send wrapper, whatever throws *)

Section ServiceFurther.
Variable throws : nat -> bool.

Lemma processMessageQueue_conserves (ws ws' : option WebSocket) (v v' : Service) :
  processMessageQueue throws ws v = Normal (ws', v') ->
  wire ws' ++ messageQueue v' = wire ws ++ messageQueue v /\
  (notConnected ws = false -> notConnected ws' = false).
Proof.
  unfold processMessageQueue.
  destruct (isProcessingQueue v || Nat.eqb (length (messageQueue v)) 0);
    [intros [= <- <-]; auto |].
  destruct ws as [s |]; [| intros [= <- <-]; auto].
  destruct (isOPEN (readyState s)) eqn:Ho; [| intros [= <- <-]; auto].
  assert (Hopen : readyState s = OPEN) by (destruct (readyState s); easy).
  destruct (drain_fifo throws (messageQueue v) s Hopen) as [pre [Hq [Hs Hr]]].
  destruct (drain throws (messageQueue v) s) as [queue s']. simpl in *.
  intros [= <- <-]. simpl. split.
  - rewrite Hs, <- app_assoc. now rewrite <- Hq.
  - intros _. unfold notConnected. now rewrite Hr.
Qed.

(** X14.  A call of [sendGamepadControl] neither loses nor duplicates a
    command, whatever the state of the connection and whichever calls of
    [send] throw: the frames on the wire followed by the queue are, after the
    call, those before the call and the new message, up to order. *)
Theorem sendGamepadControl_conserves (message : GamepadControlMessage)
    (ws ws' : option WebSocket) (v v' : Service) :
  sendGamepadControl throws message ws v = Normal (ws', v') ->
  Permutation (wire ws' ++ messageQueue v')
              (wire ws ++ messageQueue v ++ [message]).
Proof.
  unfold sendGamepadControl.
  destruct (notConnected ws) eqn:Hc.
  { intros [= <- <-]. reflexivity. }
  assert (Hpre : forall ws1 v1,
             (if Nat.ltb 0 (length (messageQueue v)) && negb (isProcessingQueue v)
              then processMessageQueue throws ws v else Normal (ws, v))
             = Normal (ws1, v1) ->
             wire ws1 ++ messageQueue v1 = wire ws ++ messageQueue v /\
             notConnected ws1 = false).
  { intros ws1 v1.
    destruct (Nat.ltb 0 (length (messageQueue v)) && negb (isProcessingQueue v)).
    - intros H. apply processMessageQueue_conserves in H. destruct H; auto.
    - intros [= <- <-]. auto. }
  destruct (if Nat.ltb 0 (length (messageQueue v)) && negb (isProcessingQueue v)
            then processMessageQueue throws ws v else Normal (ws, v))
    as [[[s1 |] v1] | r]; try discriminate.
  destruct (Hpre _ _ eq_refl) as [Hsame Hopen]. simpl in Hsame.
  assert (Ho : readyState s1 = OPEN).
  { unfold notConnected in Hopen. destruct (readyState s1); easy. }
  unfold ws_send. rewrite Ho.
  destruct (throws (sendCalls s1)); intros [= <- <-]; simpl.
  - rewrite app_assoc, Hsame, <- app_assoc. reflexivity.
  - rewrite (app_assoc (wire ws)), <- Hsame, <- !app_assoc.
    apply Permutation_app_head, Permutation_app_comm.
Qed.

(** On an open connection, between two calls: drain, then send. *)
Lemma sendGamepadControl_open (message : GamepadControlMessage)
    (s : WebSocket) (v : Service) :
  readyState s = OPEN ->
  isProcessingQueue v = false ->
  sendGamepadControl throws message (Some s) v
  = match ws_send throws message (snd (drain throws (messageQueue v) s)) with
    | Normal s2 =>
        Normal (Some s2,
                {| messageQueue := fst (drain throws (messageQueue v) s);
                   isProcessingQueue := false |})
    | Throw s2 =>
        Normal (Some s2,
                {| messageQueue := fst (drain throws (messageQueue v) s) ++ [message];
                   isProcessingQueue := false |})
    end.
Proof.
  intros Ho Hidle. unfold sendGamepadControl, notConnected.
  rewrite Ho, Hidle. simpl negb. cbv iota. rewrite andb_true_r.
  destruct v as [queue flag]. simpl in Hidle. subst flag. simpl messageQueue.
  destruct queue as [| m0 q].
  - reflexivity.
  - simpl Nat.ltb. cbv iota. unfold processMessageQueue.
    simpl isProcessingQueue. simpl messageQueue. rewrite Ho.
    simpl orb. cbv iota. simpl isOPEN. cbv iota.
    destruct (drain throws (m0 :: q) s) as [rest s1]. reflexivity.
Qed.

(** X15.  On an open connection, with the service between two calls, a call
    of [sendGamepadControl] takes a prefix of the queue off, in order, onto
    the wire and keeps the rest of the queue in order; the new message goes
    either last onto the wire or last into the queue.  This holds whichever
    calls of [send] throw. *)
Theorem sendGamepadControl_fifo (message : GamepadControlMessage)
    (s : WebSocket) (v : Service) :
  readyState s = OPEN ->
  isProcessingQueue v = false ->
  exists pre rest s',
    messageQueue v = pre ++ rest /\
    ((sendGamepadControl throws message (Some s) v
      = Normal (Some s', {| messageQueue := rest; isProcessingQueue := false |})
      /\ sent s' = sent s ++ pre ++ [message])
     \/
     (sendGamepadControl throws message (Some s) v
      = Normal (Some s', {| messageQueue := rest ++ [message];
                            isProcessingQueue := false |})
      /\ sent s' = sent s ++ pre)).
Proof.
  intros Ho Hidle.
  rewrite (sendGamepadControl_open message s v Ho Hidle).
  destruct (drain_fifo throws (messageQueue v) s Ho) as [pre [Hsplit [Hs Hr]]].
  destruct (drain throws (messageQueue v) s) as [rest s1].
  simpl in Hsplit, Hs, Hr. simpl fst. simpl snd.
  exists pre, rest. unfold ws_send. rewrite Hr.
  destruct (throws (sendCalls s1)); eexists; (split; [exact Hsplit |]).
  - right. split; [reflexivity |]. simpl. exact Hs.
  - left. split; [reflexivity |]. simpl. now rewrite Hs, <- app_assoc.
Qed.

End ServiceFurther.

Lemma sendGamepadControl_fifo_witness :
  exists pre rest s',
    [commandOf pushedState; commandOf precisionState] = pre ++ rest /\
    ((sendGamepadControl (Nat.eqb 1) (commandOf restingState) (Some openSocket)
        {| messageQueue := [commandOf pushedState; commandOf precisionState];
           isProcessingQueue := false |}
      = Normal (Some s', {| messageQueue := rest; isProcessingQueue := false |})
      /\ sent s' = sent openSocket ++ pre ++ [commandOf restingState])
     \/
     (sendGamepadControl (Nat.eqb 1) (commandOf restingState) (Some openSocket)
        {| messageQueue := [commandOf pushedState; commandOf precisionState];
           isProcessingQueue := false |}
      = Normal (Some s', {| messageQueue := rest ++ [commandOf restingState];
                            isProcessingQueue := false |})
      /\ sent s' = sent openSocket ++ pre)).
Proof.
  apply (sendGamepadControl_fifo (Nat.eqb 1) (commandOf restingState) openSocket
           {| messageQueue := [commandOf pushedState; commandOf precisionState];
              isProcessingQueue := false |}); reflexivity.
Defined.

Lemma sendGamepadControl_conserves_witness :
  Permutation
    ([commandOf pushedState; commandOf restingState] ++ [commandOf precisionState])
    ([] ++ [commandOf pushedState; commandOf precisionState]
        ++ [commandOf restingState]).
Proof.
  apply (sendGamepadControl_conserves (Nat.eqb 1) (commandOf restingState)
           (Some openSocket)
           (Some {| readyState := OPEN;
                    sent := [commandOf pushedState; commandOf restingState];
                    sendCalls := 3 |})
           {| messageQueue := [commandOf pushedState; commandOf precisionState];
              isProcessingQueue := false |}
           {| messageQueue := [commandOf precisionState];
              isProcessingQueue := false |}).
  reflexivity.
Defined.

Section SendAll.
Variable throws : nat -> bool.

Lemma sendAll_disconnected (messages : list GamepadControlMessage)
    (ws : option WebSocket) :
  notConnected ws = true ->
  forall v,
    sendAll throws messages ws v
    = Normal (ws, {| messageQueue := messageQueue v ++ messages;
                     isProcessingQueue := isProcessingQueue v |}).
Proof.
  intros Hc. induction messages as [| m rest IH]; intros v.
  - simpl. rewrite app_nil_r. now destruct v.
  - simpl. unfold sendGamepadControl. rewrite Hc. rewrite IH.
    unfold push. simpl. now rewrite <- app_assoc.
Qed.

Lemma sendGamepadControl_flush (message : GamepadControlMessage)
    (s : WebSocket) (v : Service) :
  readyState s = OPEN -> isProcessingQueue v = false ->
  (forall n, throws n = false) ->
  sendGamepadControl throws message (Some s) v
  = Normal (Some (afterSends s (messageQueue v ++ [message])
                    (length (messageQueue v) + 1)),
            {| messageQueue := []; isProcessingQueue := false |}).
Proof.
  intros Ho Hidle Hok.
  rewrite (sendGamepadControl_open throws message s v Ho Hidle).
  rewrite (drain_all throws (messageQueue v) s Ho) by (intros; apply Hok).
  simpl fst. simpl snd.
  rewrite ws_send_ok; [| exact Ho | apply Hok].
  now rewrite afterSends_afterSends.
Qed.

Lemma sendAll_flush (rest : list GamepadControlMessage) :
  forall message s v,
    readyState s = OPEN -> isProcessingQueue v = false ->
    (forall n, throws n = false) ->
    sendAll throws (message :: rest) (Some s) v
    = Normal (Some (afterSends s (messageQueue v ++ message :: rest)
                      (length (messageQueue v) + S (length rest))),
              {| messageQueue := []; isProcessingQueue := false |}).
Proof.
  induction rest as [| m' rest IH]; intros message s v Ho Hidle Hok.
  - simpl. now rewrite (sendGamepadControl_flush message s v Ho Hidle Hok).
  - change (sendAll throws (message :: m' :: rest) (Some s) v)
      with (match sendGamepadControl throws message (Some s) v with
            | Normal (ws', v') => sendAll throws (m' :: rest) ws' v'
            | Throw r => Throw r
            end).
    rewrite (sendGamepadControl_flush message s v Ho Hidle Hok).
    rewrite IH; [| exact Ho | reflexivity | exact Hok].
    simpl messageQueue. rewrite afterSends_afterSends.
    simpl length. rewrite <- app_assoc. simpl app.
    replace (length (messageQueue v) + 1 + (0 + S (length rest)))%nat
      with (length (messageQueue v) + S (S (length rest)))%nat by lia.
    reflexivity.
Qed.

(** X16.  Commands issued while the connection is not open pile up behind
    the queue in the order issued; and on an open connection where no [send]
    throws, a run of commands leaves the queue empty and the wire holding
    the old queue followed by the commands, in the order issued. *)
Theorem sendAll_in_order (messages : list GamepadControlMessage)
    (ws : option WebSocket) (v : Service) :
  isProcessingQueue v = false ->
  (notConnected ws = true ->
   sendAll throws messages ws v
   = Normal (ws, {| messageQueue := messageQueue v ++ messages;
                    isProcessingQueue := false |}))
  /\
  (forall s,
     ws = Some s -> readyState s = OPEN -> (forall n, throws n = false) ->
     messages <> [] ->
     sendAll throws messages ws v
     = Normal (Some (afterSends s (messageQueue v ++ messages)
                       (length (messageQueue v) + length messages)),
               {| messageQueue := []; isProcessingQueue := false |})).
Proof.
  intros Hidle. split.
  - intros Hc. rewrite (sendAll_disconnected messages ws Hc v). now rewrite Hidle.
  - intros s -> Ho Hok Hne.
    destruct messages as [| message rest]; [contradiction |].
    now apply sendAll_flush.
Qed.

End SendAll.

(** Two commands queued during an outage, two more once the socket is
    open. *)
Lemma sendAll_in_order_witness :
  sendAll (fun _ => false) [commandOf pushedState; commandOf precisionState]
    (Some freshSocket) initialService
  = Normal (Some freshSocket,
            {| messageQueue := [commandOf pushedState; commandOf precisionState];
               isProcessingQueue := false |})
  /\
  sendAll (fun _ => false) [commandOf bothTriggers; commandOf restingState]
    (Some openSocket)
    {| messageQueue := [commandOf pushedState; commandOf precisionState];
       isProcessingQueue := false |}
  = Normal (Some {| readyState := OPEN;
                    sent := [commandOf pushedState; commandOf precisionState;
                             commandOf bothTriggers; commandOf restingState];
                    sendCalls := 4 |},
            initialService).
Proof.
  split.
  - destruct (sendAll_in_order (fun _ => false)
                [commandOf pushedState; commandOf precisionState]
                (Some freshSocket) initialService eq_refl) as [Hdown _].
    apply Hdown. reflexivity.
  - destruct (sendAll_in_order (fun _ => false)
                [commandOf bothTriggers; commandOf restingState]
                (Some openSocket)
                {| messageQueue := [commandOf pushedState; commandOf precisionState];
                   isProcessingQueue := false |} eq_refl) as [_ Hup].
    apply (Hup openSocket); [reflexivity | reflexivity | reflexivity | discriminate].
Defined.

(** ** The joint helpers of the service *)

Lemma addAt_alter (i : nat) (d : Q) (l : list Q) :
  addAt i d l = alter (fun v => v + d) i l.
Proof.
  unfold addAt. destruct (Nat.ltb i (length l)) eqn:E; [reflexivity |].
  apply Nat.ltb_ge in E. symmetry.
  apply list_eq. intros j.
  destruct (decide (i = j)) as [<- | Hne].
  - rewrite list_lookup_alter_eq.
    now rewrite (lookup_ge_None_2 l i E).
  - now rewrite list_lookup_alter_ne.
Qed.

(** X17.  [calculateJointDeltas] returns an array of the length it was
    given (the empty one for the empty one): joint 0, 1, 2, where present,
    is moved by five times the x, y, z delta, and every joint from index 3
    on is returned as it was. *)
Theorem calculateJointDeltas_pointwise (currentJoints : list Q) (deltas : Xyz.t) :
  length (calculateJointDeltas currentJoints deltas) = length currentJoints /\
  forall i,
    calculateJointDeltas currentJoints deltas !! i
    = match i with
      | 0%nat => (fun v => v + Xyz.x deltas * 5) <$> currentJoints !! 0%nat
      | 1%nat => (fun v => v + Xyz.y deltas * 5) <$> currentJoints !! 1%nat
      | 2%nat => (fun v => v + Xyz.z deltas * 5) <$> currentJoints !! 2%nat
      | _ => currentJoints !! i
      end.
Proof.
  unfold calculateJointDeltas. rewrite !addAt_alter. split.
  - now rewrite !length_alter.
  - intros i. destruct i as [| [| [| i]]].
    + rewrite !list_lookup_alter_ne by lia. apply list_lookup_alter_eq.
    + rewrite list_lookup_alter_ne by lia. rewrite list_lookup_alter_eq.
      now rewrite list_lookup_alter_ne by lia.
    + rewrite list_lookup_alter_eq. now rewrite !list_lookup_alter_ne by lia.
    + now rewrite !list_lookup_alter_ne by lia.
Qed.

(** X18.  The zero delta changes nothing: [calculateJointDeltas] returns
    every joint with the value it had, for an array of any length. *)
Theorem calculateJointDeltas_zero (currentJoints : list Q) :
  Forall2 Qeq (calculateJointDeltas currentJoints (Xyz.mk 0 0 0)) currentJoints.
Proof.
  assert (Hrefl : forall l : list Q, Forall2 Qeq l l).
  { induction l; constructor; [reflexivity | assumption]. }
  destruct currentJoints as [| j0 [| j1 [| j2 rest]]];
    unfold calculateJointDeltas, addAt; simpl;
    repeat (constructor; [ring |]); auto.
Qed.

(** X19.  [mapGamepadToJointVelocities] returns [numJoints] velocities (none
    for 0): the x, y, z delta for joints 0, 1, 2, where present, and zero
    for every further joint. *)
Theorem mapGamepadToJointVelocities_pointwise (deltas : Xyz.t) (numJoints : nat) :
  length (mapGamepadToJointVelocities deltas numJoints) = numJoints /\
  forall i, (i < numJoints)%nat ->
    mapGamepadToJointVelocities deltas numJoints !! i
    = Some match i with
           | 0%nat => Xyz.x deltas * 1.0
           | 1%nat => Xyz.y deltas * 1.0
           | 2%nat => Xyz.z deltas * 1.0
           | _ => 0
           end.
Proof.
  unfold mapGamepadToJointVelocities, setAt.
  destruct numJoints as [| [| [| n]]]; simpl; (split; [now rewrite ?length_replicate |]);
    intros i Hi.
  - lia.
  - destruct i as [| i]; [reflexivity | lia].
  - destruct i as [| [| i]]; [reflexivity | reflexivity | lia].
  - destruct i as [| [| [| i]]]; try reflexivity.
    simpl. apply lookup_replicate_2. lia.
Qed.

Lemma mapGamepadToJointVelocities_pointwise_witness :
  mapGamepadToJointVelocities (Xyz.mk 0.5 (-0.25) 1) 5 !! 4%nat = Some 0.
Proof.
  destruct (mapGamepadToJointVelocities_pointwise (Xyz.mk 0.5 (-0.25) 1) 5)
    as [_ Hat].
  apply (Hat 4%nat). lia.
Defined.

(** ** Teardown and the current socket of the session *)

Lemma clearTimeout_idempotent (id : nat) (timers : list (nat * Z)) :
  clearTimeout id (clearTimeout id timers) = clearTimeout id timers.
Proof.
  induction timers as [| [i due] rest IH]; [reflexivity |].
  simpl. destruct (Nat.eqb i id) eqn:E; [exact IH |].
  simpl. rewrite E. now rewrite IH.
Qed.

Lemma ws_close_idempotent (s : WebSocket) : ws_close (ws_close s) = ws_close s.
Proof. destruct s as [[] frames n]; reflexivity. Qed.

(** X20.  [disconnect()] is idempotent: calling it again right away leaves
    the session, its sockets and its timeouts exactly as the first call left
    them. *)
Theorem disconnect_idempotent (s : State) :
  disconnect (disconnect s) = disconnect s.
Proof.
  unfold disconnect. cbn [ws reconnectTimeout sockets timers nextTimeout clock console].
  f_equal.
  - destruct (ws s) as [i |]; [| reflexivity].
    rewrite list_alter_alter_eq.
    apply list_alter_ext; [| reflexivity].
    intros w _. apply ws_close_idempotent.
  - unfold clearPending at 1.
    cbn [reconnectTimeout timers].
    unfold clearPending.
    destruct (reconnectTimeout s) as [id |]; [| reflexivity].
    destruct (Nat.eqb id 0); [reflexivity |].
    apply clearTimeout_idempotent.
Qed.

Lemma halted_socketState (s : State) (i : nat) (r : ReadyState) :
  halted s -> socketState i s = Some r -> r = CLOSED.
Proof.
  intros [Hall _]. unfold socketState.
  destruct (sockets s !! i) as [w |] eqn:E; [| discriminate].
  simpl. intros [= <-].
  rewrite Forall_forall in Hall. apply Hall.
  apply list_elem_of_In, list_elem_of_lookup. eauto.
Qed.

Lemma alter_ws_close_closed (i : nat) (l : list WebSocket) :
  Forall (fun w => readyState w = CLOSED) l -> alter ws_close i l = l.
Proof.
  intros Hall. apply list_eq. intros j.
  destruct (decide (i = j)) as [<- | Hne]; [| now rewrite list_lookup_alter_ne].
  rewrite list_lookup_alter_eq.
  destruct (l !! i) as [w |] eqn:E; [| reflexivity].
  simpl. f_equal. unfold ws_close.
  rewrite Forall_forall in Hall.
  rewrite (Hall w); [reflexivity |].
  apply list_elem_of_In, list_elem_of_lookup. eauto.
Qed.

Lemma halted_step (e : Event) (s s' : State) :
  halted s -> e <> CallConnect -> step e s = Some s' ->
  halted s' /\ sockets s' = sockets s /\ console s' = console s.
Proof.
  intros Hh Hne. pose proof Hh as [Hall Ht].
  destruct e; simpl.
  - contradiction.
  - intros [= <-]. unfold disconnect, halted.
    cbn [sockets timers console]. unfold clearPending. rewrite Ht.
    assert (Hs : match ws s with
                 | Some i => alter ws_close i (sockets s)
                 | None => sockets s
                 end = sockets s).
    { destruct (ws s); [now apply alter_ws_close_closed | reflexivity]. }
    rewrite Hs. repeat split; try assumption.
    destruct (reconnectTimeout s) as [id |]; [| reflexivity].
    now destruct (Nat.eqb id 0).
  - destruct (socketState i s) as [r |] eqn:E; [| discriminate].
    rewrite (halted_socketState s i r Hh E). discriminate.
  - destruct (socketState i s) as [r |] eqn:E; [| discriminate].
    rewrite (halted_socketState s i r Hh E). discriminate.
  - destruct (socketState i s) as [r |] eqn:E; [| discriminate].
    rewrite (halted_socketState s i r Hh E). discriminate.
  - rewrite Ht. discriminate.
  - destruct (Z.leb 0 ms); [| discriminate].
    intros [= <-]. repeat split; assumption.
Qed.

(** X21.  A teardown made while the session is between connections (every
    socket it created has closed) does halt it: [disconnect()] cancels the
    pending reconnect, and from then on, as long as the application does not
    call [connect()], no socket event and no timeout can run; no socket is
    created and nothing is logged. *)
Theorem disconnect_while_closed_halts (s s' : State) (events : list Event) :
  reachable s ->
  Forall (fun w => readyState w = CLOSED) (sockets s) ->
  leftAlone events ->
  run events (disconnect s) = Some s' ->
  timers (disconnect s) = [] /\
  sockets s' = sockets s /\ timers s' = [] /\ console s' = console s /\
  Forall (fun e => e = CallDisconnect \/ exists ms, e = Elapse ms) events.
Proof.
  intros Hreach Hclosed Halone Hrun.
  pose proof (reachable_invariant s Hreach) as Hinv.
  assert (Hh : halted (disconnect s)).
  { split.
    - unfold disconnect. cbn [sockets].
      destruct (ws s); [now rewrite alter_ws_close_closed | assumption].
    - unfold disconnect. cbn [timers]. now apply clearPending_nil. }
  assert (Hs0 : sockets (disconnect s) = sockets s).
  { unfold disconnect. cbn [sockets].
    destruct (ws s); [now apply alter_ws_close_closed | reflexivity]. }
  split; [apply Hh |].
  rewrite <- Hs0. change (console s) with (console (disconnect s)).
  revert Hh Hrun. clear Hs0. generalize (disconnect s).
  induction Halone as [| e rest Hne _ IH]; intros s0 Hh Hrun.
  - simpl in Hrun. injection Hrun as <-.
    repeat split; [apply Hh | constructor].
  - simpl in Hrun. destruct (step e s0) as [s1 |] eqn:E; [| discriminate].
    destruct (halted_step e s0 s1 Hh Hne E) as [Hh1 [Hs1 Hc1]].
    destruct (IH s1 Hh1 Hrun) as [Hs [Ht [Hc Hev]]].
    rewrite <- Hs1, <- Hc1. repeat split; try assumption.
    constructor; [| exact Hev].
    destruct e; simpl in E; eauto.
    + contradiction.
    + destruct (socketState i s0) as [r |] eqn:Er; [| discriminate].
      rewrite (halted_socketState s0 i r Hh Er) in E. discriminate.
    + destruct (socketState i s0) as [r |] eqn:Er; [| discriminate].
      rewrite (halted_socketState s0 i r Hh Er) in E. discriminate.
    + destruct (socketState i s0) as [r |] eqn:Er; [| discriminate].
      rewrite (halted_socketState s0 i r Hh Er) in E. discriminate.
    + destruct Hh as [_ Ht0]. rewrite Ht0 in E. discriminate.
Qed.

Lemma backingOff_reachable : reachable backingOff.
Proof. exists [CallConnect; SocketClose 0]. reflexivity. Defined.

Lemma disconnect_while_closed_halts_witness :
  timers (disconnect backingOff) = [] /\
  run [Elapse 5000; TimeoutFires 1] (disconnect backingOff) = None.
Proof.
  split.
  - destruct (disconnect_while_closed_halts backingOff
                (advance 5000 (disconnect backingOff)) [Elapse 5000]
                backingOff_reachable) as [Hcancel _].
    + repeat constructor.
    + repeat constructor. discriminate.
    + reflexivity.
    + exact Hcancel.
  - reflexivity.
Defined.

Lemma length_sockets_setSocket (i : nat) (r : ReadyState) (s : State) :
  length (sockets (setSocket i r s)) = length (sockets s).
Proof. unfold setSocket. cbn [sockets]. apply length_alter. Qed.

Lemma pointsToNewest_same_length (s s' : State) :
  ws s' = ws s -> length (sockets s') = length (sockets s) ->
  pointsToNewest s -> pointsToNewest s'.
Proof.
  unfold pointsToNewest. intros -> Hlen ->.
  destruct (sockets s), (sockets s'); simpl in *; try discriminate;
    [reflexivity |]. injection Hlen as ->. reflexivity.
Qed.

Lemma pointsToNewest_connect (s : State) : pointsToNewest (connect s).
Proof.
  unfold pointsToNewest, connect. cbn [ws sockets].
  destruct (sockets s) as [| w l]; [reflexivity |].
  simpl. rewrite length_app. simpl. f_equal. lia.
Qed.

Lemma step_pointsToNewest (e : Event) (s s' : State) :
  pointsToNewest s -> step e s = Some s' -> pointsToNewest s'.
Proof.
  intros Hp. destruct e; simpl.
  - intros [= <-]. apply pointsToNewest_connect.
  - intros [= <-]. apply (pointsToNewest_same_length s); [reflexivity | | exact Hp].
    unfold disconnect. cbn [sockets].
    destruct (ws s); [apply length_alter | reflexivity].
  - destruct (socketState i s) as [[] |]; try discriminate.
    intros [= <-]. apply (pointsToNewest_same_length s); [reflexivity | | exact Hp].
    apply length_alter.
  - destruct (socketState i s) as [[] |]; try discriminate;
      intros [= <-]; exact Hp.
  - destruct (socketState i s) as [[] |]; try discriminate;
      intros [= <-];
      (apply (pointsToNewest_same_length s); [reflexivity | | exact Hp]);
      apply length_alter.
  - destruct (isDue id (clock s) (timers s)); [| discriminate].
    intros [= <-]. apply pointsToNewest_connect.
  - destruct (Z.leb 0 ms); [| discriminate].
    intros [= <-]. exact Hp.
Qed.

(** X22.  In every state a session can reach, [getWebSocketConnection()]
    returns the socket created last, or null when [connect()] has never
    run: a send never goes to a socket that a reconnect has replaced. *)
Theorem getWebSocketConnection_newest (s : State) :
  reachable s ->
  getWebSocketConnection (Some s) = list.last (sockets s).
Proof.
  intros [events Hrun].
  assert (Hp : pointsToNewest s).
  { assert (H0 : pointsToNewest initial) by reflexivity.
    revert H0 Hrun. generalize initial.
    induction events as [| e rest IH]; intros s0 H0; simpl.
    - now intros [= <-].
    - destruct (step e s0) as [s1 |] eqn:E; [| discriminate].
      apply IH. exact (step_pointsToNewest e s0 s1 H0 E). }
  unfold getWebSocketConnection. rewrite Hp.
  destruct (sockets s) as [| w l _] using rev_ind; [reflexivity |].
  rewrite last_snoc.
  assert (Hi : match l ++ [w] with
               | [] => None
               | _ :: _ => Some (length (l ++ [w]) - 1)%nat
               end = Some (length l)).
  { destruct l; simpl; [reflexivity |].
    rewrite length_app. simpl. f_equal. lia. }
  rewrite Hi. now apply list_lookup_middle.
Qed.

Lemma getWebSocketConnection_newest_witness :
  getWebSocketConnection (Some afterFirstClose) = Some freshSocket.
Proof.
  apply (getWebSocketConnection_newest afterFirstClose afterFirstClose_reachable).
Defined.

(** ** Inbound dispatch *)

Section DispatchProperties.
Variable Message Obs : Type.
Variable parse : string -> option Message.

Lemma forEachHandler_app (first second : list (Handler Message Obs))
    (message : Message) :
  forall o,
    forEachHandler (first ++ second) message o
    = match forEachHandler first message o with
      | Normal o' => forEachHandler second message o'
      | Throw o' => Throw o'
      end.
Proof.
  induction first as [| handler rest IH]; intros o; [reflexivity |].
  simpl. destruct (handler message o) as [o' | o']; [apply IH | reflexivity].
Qed.

(** X23.  An inbound payload never breaks the session: one that does not
    parse reaches no handler and is logged; and when a handler throws, the
    handlers registered before it have run, the ones registered after it
    never see the message, and the failure is logged under the same line. *)
Theorem onmessage_drops (messageHandlers : list (Handler Message Obs))
    (data : string) (o : Obs) (console : list string) :
  (parse data = None ->
   onmessage parse messageHandlers data (o, console)
   = (o, console ++ ["Error parsing WebSocket message:"%string]))
  /\
  (forall message before thrower after o1 o2,
     parse data = Some message ->
     messageHandlers = before ++ thrower :: after ->
     forEachHandler before message o = Normal o1 ->
     thrower message o1 = Throw o2 ->
     onmessage parse messageHandlers data (o, console)
     = (o2, console ++ ["Error parsing WebSocket message:"%string])).
Proof.
  split.
  - intros Hp. unfold onmessage. now rewrite Hp.
  - intros message before thrower after o1 o2 Hp -> Hb Ht.
    unfold onmessage. rewrite Hp, forEachHandler_app, Hb. simpl.
    now rewrite Ht.
Qed.

(** X24.  Handlers run in the order they were registered: a handler added
    with [onMessage] runs after all the earlier ones, on the state they
    left, and only when none of them threw; when no handler throws nothing
    is logged. *)
Theorem onMessage_runs_last (messageHandlers : list (Handler Message Obs))
    (handler : Handler Message Obs) (message : Message) (o : Obs) :
  forEachHandler (onMessage handler messageHandlers) message o
  = match forEachHandler messageHandlers message o with
    | Normal o' => handler message o'
    | Throw o' => Throw o'
    end
  /\
  (forall data console o' o'',
     parse data = Some message ->
     forEachHandler messageHandlers message o = Normal o' ->
     handler message o' = Normal o'' ->
     onmessage parse (onMessage handler messageHandlers) data (o, console)
     = (o'', console)).
Proof.
  assert (Hlast : forEachHandler (onMessage handler messageHandlers) message o
                  = match forEachHandler messageHandlers message o with
                    | Normal o' => handler message o'
                    | Throw o' => Throw o'
                    end).
  { unfold onMessage. rewrite forEachHandler_app.
    destruct (forEachHandler messageHandlers message o) as [o' | o'];
      [| reflexivity].
    simpl. now destruct (handler message o'). }
  split; [exact Hlast |].
  intros data console o' o'' Hp Hall Hh.
  unfold onmessage. now rewrite Hp, Hlast, Hall, Hh.
Qed.

End DispatchProperties.

Lemma onmessage_drops_witness :
  onmessage parseSample [recorder "a:"; faulty; recorder "b:"] "frame" ([], [])
  = (["a:frame"%string], ["Error parsing WebSocket message:"%string]).
Proof.
  destruct (onmessage_drops string (list string) parseSample
              [recorder "a:"; faulty; recorder "b:"] "frame" [] []) as [_ Hthrow].
  apply (Hthrow "frame"%string [recorder "a:"] faulty [recorder "b:"]
           ["a:frame"%string] ["a:frame"%string]); reflexivity.
Defined.

Lemma onMessage_runs_last_witness :
  onmessage parseSample (onMessage (recorder "b:") [recorder "a:"]) "frame" ([], [])
  = (["a:frame"; "b:frame"]%string, []).
Proof.
  destruct (onMessage_runs_last string (list string) parseSample
              [recorder "a:"] (recorder "b:") "frame"%string []) as [_ Hrun].
  apply (Hrun "frame"%string [] ["a:frame"%string]); reflexivity.
Defined.

(** ** From the deadzone to the rest rule *)

(** X25.  When all four raw axes are inside the deadzone, the polled
    snapshot shows no movement to the throttler, whatever the gains and the
    inversion: the deadzone of the poller implies the rest condition of the
    throttler. *)
Theorem readGamepad_rest_no_movement (config : GamepadConfig)
    (g : Navigator.Gamepad) :
  Qabs (Navigator.axis g 0) < deadzone config ->
  Qabs (Navigator.axis g 1) < deadzone config ->
  Qabs (Navigator.axis g 2) < deadzone config ->
  Qabs (Navigator.axis g 3) < deadzone config ->
  hasMovement (readGamepad config g) = false.
Proof.
  intros H0 H1 H2 H3.
  unfold hasMovement, readGamepad, condition.
  cbn [leftStick rightStick Vec2.x Vec2.y].
  rewrite (applyDeadzone_rest _ _ H0), (applyDeadzone_rest _ _ H1),
          (applyDeadzone_rest _ _ H2), (applyDeadzone_rest _ _ H3).
  assert (Hz : forall q, q == 0 -> Qgtb (Qabs q) 0.01 = false).
  { intros q Hq. apply Qgtb_le. rewrite Hq. discriminate. }
  rewrite !Hz; [reflexivity | ring | ring | ring | ring].
Qed.

Lemma readGamepad_rest_no_movement_witness :
  hasMovement
    (readGamepad DEFAULT_GAMEPAD_CONFIG
       {| Navigator.id := "pad"; Navigator.axes := [0.05; -0.02; 0.09; 0];
          Navigator.buttons := [] |})
  = false.
Proof.
  apply (readGamepad_rest_no_movement DEFAULT_GAMEPAD_CONFIG
           {| Navigator.id := "pad"; Navigator.axes := [0.05; -0.02; 0.09; 0];
              Navigator.buttons := [] |}); reflexivity.
Defined.
